(** * Sentiment classifier ([src/app.py]): a shallow embedding and its properties

    The classifier [classify_sentiment] of [src/app.py] is a pure function of
    one Python [str].  A Python string is a sequence of Unicode code points;
    it is modelled as a list of code points ([Z]).  The running score is a
    Python [float], i.e. an IEEE 754 binary64 number, modelled by the
    primitive floats of Rocq (same format, same rounding).

    Two Python built-ins consult Unicode tables that are not part of the
    repository: [str.lower], and the class [\w] behind the regular
    expression anchor [\b] ([str.isalnum] or an underscore).  They are
    Section variables of the development, so the general theorems hold for
    whatever these tables say.  Closed examples run with the ASCII instances
    [ascii_lower] and [ascii_alnum], which agree with Python on every string
    whose cased and alphanumeric characters are all ASCII.

    The statement [toks = tokenize(text)] of the source is left out: [toks]
    is never read afterwards and [tokenize] has no effect.  [tokenize] and
    [is_emoji] are modelled on their own. *)

From Stdlib Require Import ZArith List Bool String Ascii Floats Sorted Lia.
Import ListNotations.

Set Warnings "-inexact-float".
Local Open Scope Z_scope.

(** ** Python strings *)

Definition str := list Z.

(** An ASCII literal as a list of code points. *)
Definition lit (s : string) : str :=
  List.map (fun a => Z.of_N (N_of_ascii a)) (list_ascii_of_string s).

Fixpoint str_eqb (a b : str) : bool :=
  match a, b with
  | [], [] => true
  | x :: a', y :: b' => (x =? y) && str_eqb a' b'
  | _, _ => false
  end.

(** [w in S] for a set (or list, or tuple) of strings. *)
Definition in_set (w : str) (S : list str) : bool := existsb (str_eqb w) S.

(** [s] with the prefix [p] removed, when [s] starts with [p]. *)
Fixpoint strip_prefix (p s : str) : option str :=
  match p, s with
  | [], _ => Some s
  | _ :: _, [] => None
  | x :: p', y :: s' => if x =? y then strip_prefix p' s' else None
  end.

Definition starts_with (p s : str) : bool :=
  match strip_prefix p s with Some _ => true | None => false end.

(** [sub in s] for strings: [sub] occurs in [s] as a substring. *)
Fixpoint contains (sub s : str) : bool :=
  starts_with sub s || match s with [] => false | _ :: s' => contains sub s' end.

(** [s.split(sep, 1)[1]]: what follows the first occurrence of [sep];
    [None] when [sep] does not occur (Python raises [IndexError] then). *)
Fixpoint split_after (sep s : str) : option str :=
  match strip_prefix sep s with
  | Some rest => Some rest
  | None => match s with [] => None | _ :: s' => split_after sep s' end
  end.

(** [l[a:b]] for indices [0 <= a], [0 <= b] (Python clips at the length). *)
Definition slice {A} (l : list A) (a b : nat) : list A :=
  firstn (b - a) (skipn a l).

(** [" ".join(ws)]. *)
Fixpoint join_space (ws : list str) : str :=
  match ws with
  | [] => []
  | [w] => w
  | w :: ws' => w ++ 32 :: join_space ws'
  end.

(** [s.count(c)] for a one-character [c]. *)
Definition count_char (c : Z) (s : str) : nat :=
  List.length (filter (Z.eqb c) s).

(** [str.isspace] on one code point, which is also the class [\s] of [re] on
    [str] patterns: the code points CPython lists as whitespace. *)
Definition is_space (c : Z) : bool :=
  ((9 <=? c) && (c <=? 13)) || ((28 <=? c) && (c <=? 32))
  || (c =? 133) || (c =? 160) || (c =? 5760)
  || ((8192 <=? c) && (c <=? 8202))
  || (c =? 8232) || (c =? 8233) || (c =? 8239) || (c =? 8287) || (c =? 12288).

Fixpoint lstrip (s : str) : str :=
  match s with
  | [] => []
  | c :: s' => if is_space c then lstrip s' else s
  end.

(** [s.strip()]. *)
Definition strip (s : str) : str := rev (lstrip (rev (lstrip s))).

(** Truth value of a string: non-empty. *)
Definition truthy (s : str) : bool :=
  match s with [] => false | _ :: _ => true end.

(** ASCII instances of the Unicode tables. *)
Definition ascii_lower_char (c : Z) : Z :=
  if (65 <=? c) && (c <=? 90) then c + 32 else c.

Definition ascii_lower (s : str) : str := List.map ascii_lower_char s.

Definition ascii_alnum (c : Z) : bool :=
  ((48 <=? c) && (c <=? 57)) || ((65 <=? c) && (c <=? 90))
  || ((97 <=? c) && (c <=? 122)).

(** ** Lexicons *)

Definition POS_WORDS : list str := List.map lit
  ["good";"great";"excellent";"awesome";"amazing";"fantastic";"love";"like";
   "liked";"likes";"enjoy";"enjoyed";"wonderful";"perfect";"nice";"sweet";
   "thanks";"thank";"appreciate";"glad";"happy";"joy";"thrilled";"delighted";
   "cool";"wow";
   "lit";"fire";"dope";"goated";"pog";"based";"legit";"clutch";"win";
   "winning";"w";
   "sick";"insane";"crazy";"ridiculous";"wild";
   "chef's";"kiss";"slaps";"banger"]%string.

Definition NEG_WORDS : list str := List.map lit
  ["bad";"awful";"terrible";"horrible";"hate";"hated";"dislike";"disliked";
   "worse";"worst";"annoying";"stupid";"dumb";"useless";"broken";"buggy";
   "angry";"mad";"upset";"sad";"disappointed";"disappointing";"cringe";
   "gross";"sucks";"sucked";"sucky";"lame";"meh";
   "trash";"mid";"cap";"salty";"ratio";"cope";"downbad";"flake";"flaky";
   "weak";"fail";"l";"wtf";"smh";"bs"]%string.

Definition NEGATORS : list str := List.map lit
  ["not";"no";"never";"hardly";"scarcely";"barely";"without";"ain't";"isn't";
   "wasn't";"don't";"doesn't";"didn't";"can't";"couldn't";"won't";"wouldn't";
   "shouldn't";"lack";"lacking"]%string.

Definition INTENSIFIERS : list str := List.map lit
  ["very";"really";"so";"super";"totally";"absolutely";"insanely";"crazy";
   "hella";"deadass";"fr";"for";"real"]%string.

Definition DIMINISHERS : list str := List.map lit
  ["kinda";"kind";"of";"sorta";"sort";"of";"slightly";"somewhat";"a";"bit";
   "lowkey"]%string.

(** The red heart of [POS_EMOJI] is written in the source as two code points:
    U+2764 followed by the variation selector U+FE0F. *)
Definition red_heart : str := [0x2764; 0xFE0F].

Definition POS_EMOJI : list str :=
  [[0x1F642]; [0x1F60A]; [0x1F604]; [0x1F603]; [0x1F601]; [0x1F60D];
   [0x1F970]; red_heart; [0x1F496]; [0x1F525]; [0x2728]; [0x1F44D];
   [0x1F44F]; [0x1F64C]; [0x1F601]; [0x1F602]; [0x1F923]; [0x1F60E];
   [0x2705]; [0x1F4AF]].

Definition NEG_EMOJI : list str :=
  [[0x2639]; [0x1F641]; [0x1F61E]; [0x1F620]; [0x1F621]; [0x1F494];
   [0x1F44E]; [0x1F622]; [0x1F62D]; [0x1F92E]; [0x1F922]; [0x1F624];
   [0x1F612]; [0x1F613]; [0x1F615]; [0x274C]].

Definition POS_EVENT_WORDS : list str := List.map lit
  ["bought";"buy";"got";"gift";"gifting";"surprise";"treat";"treated";
   "helped";"promoted";"passed";"win";"won";"upgrade";"raise";"lunch";
   "dinner";"coffee"]%string.

(** The literal set of the source's word loop. *)
Definition AMBIGUOUS : list str := List.map lit
  ["sick";"crazy";"insane";"ridiculous";"wild"]%string.

(** [contains_any(s, vocab)]: some member of [vocab] is a substring of [s]. *)
Definition contains_any (s : str) (vocab : list str) : bool :=
  existsb (fun w => contains w s) vocab.

(** ** Regular expressions

    The fragment of Python's [re] the source uses, with a backtracking
    matcher in continuation-passing style.  The matcher carries the character
    before the current position, which the anchor [\b] looks at. *)

Inductive regex : Type :=
| RLit (l : str)              (* literal text *)
| RAlt (a b : regex)          (* a|b *)
| RSeq (a b : regex)          (* ab *)
| ROpt (a : regex)            (* (a)? *)
| RPlus (cls : Z -> bool)     (* [cls]+ *)
| RWordB                      (* \b *)
| REnd.                       (* $ *)

Definition last_char (l : str) (prev : option Z) : option Z :=
  match rev l with c :: _ => Some c | [] => prev end.

(** [$] without [re.MULTILINE]: the end of the string, or just before a
    newline that is its last character. *)
Definition at_end (s : str) : bool :=
  match s with
  | [] => true
  | [c] => c =? 10
  | _ => false
  end.

(** One or more characters of a class, then the continuation. *)
Fixpoint plus_cls (cls : Z -> bool) (s : str) (k : option Z -> str -> bool)
  : bool :=
  match s with
  | [] => false
  | c :: s' => cls c && (k (Some c) s' || plus_cls cls s' k)
  end.

(** The class [[A-Za-z']]. *)
Definition is_word_letter (c : Z) : bool :=
  ((65 <=? c) && (c <=? 90)) || ((97 <=? c) && (c <=? 122)) || (c =? 39).

(** [re.findall(r"[A-Za-z']+", s)]: the maximal runs of the class, left to
    right; [cur] is the run being read. *)
Fixpoint findall_words (s : str) (cur : str) : list str :=
  match s with
  | [] => if truthy cur then [cur] else []
  | c :: s' =>
      if is_word_letter c then findall_words s' (cur ++ [c])
      else (if truthy cur then [cur] else []) ++ findall_words s' []
  end.

(** ** Floats and the evidence record *)

(** An [int] between 0 and 3 used in float arithmetic. *)
Definition float_of_nat (n : nat) : float :=
  PrimFloat.of_uint63 (Uint63.of_Z (Z.of_nat n)).

Inductive label : Type := positive | negative | neutral.

(** The per-call accumulator: the running score and the six evidence lists. *)
Record Ctx : Type := mkCtx {
  score : float;
  pos_hits : list str;
  neg_hits : list str;
  flipped_hits : list str;
  intens_hits : list str;
  dim_hits : list str;
  emo_hits : list str
}.

Definition init_ctx : Ctx := mkCtx 0%float [] [] [] [] [] [].

Definition add_score (d : float) (st : Ctx) : Ctx :=
  mkCtx (score st + d)%float (pos_hits st) (neg_hits st) (flipped_hits st)
        (intens_hits st) (dim_hits st) (emo_hits st).

Definition sub_score (d : float) (st : Ctx) : Ctx :=
  mkCtx (score st - d)%float (pos_hits st) (neg_hits st) (flipped_hits st)
        (intens_hits st) (dim_hits st) (emo_hits st).

Definition push_pos (w : str) (st : Ctx) : Ctx :=
  mkCtx (score st) (pos_hits st ++ [w]) (neg_hits st) (flipped_hits st)
        (intens_hits st) (dim_hits st) (emo_hits st).

Definition push_neg (w : str) (st : Ctx) : Ctx :=
  mkCtx (score st) (pos_hits st) (neg_hits st ++ [w]) (flipped_hits st)
        (intens_hits st) (dim_hits st) (emo_hits st).

Definition push_flipped (w : str) (st : Ctx) : Ctx :=
  mkCtx (score st) (pos_hits st) (neg_hits st) (flipped_hits st ++ [w])
        (intens_hits st) (dim_hits st) (emo_hits st).

Definition push_intens (w : str) (st : Ctx) : Ctx :=
  mkCtx (score st) (pos_hits st) (neg_hits st) (flipped_hits st)
        (intens_hits st ++ [w]) (dim_hits st) (emo_hits st).

Definition push_dim (w : str) (st : Ctx) : Ctx :=
  mkCtx (score st) (pos_hits st) (neg_hits st) (flipped_hits st)
        (intens_hits st) (dim_hits st ++ [w]) (emo_hits st).

Definition push_emo (w : str) (st : Ctx) : Ctx :=
  mkCtx (score st) (pos_hits st) (neg_hits st) (flipped_hits st)
        (intens_hits st) (dim_hits st) (emo_hits st ++ [w]).

(** [round(x, 3)]: CPython rounds the exact value of [x] to three decimals,
    ties to even, and returns the float nearest to that decimal; infinities
    and NaN round to themselves. *)
Definition div_half_even (num den : Z) : Z :=
  let q := num / den in
  let r := num mod den in
  match 2 * r ?= den with
  | Lt => q
  | Gt => q + 1
  | Eq => if Z.even q then q else q + 1
  end.

Definition round3 (x : float) : float :=
  match Prim2SF x with
  | S754_finite s m e =>
      let n := match e with
               | Zneg p => div_half_even (Zpos m * 1000) (2 ^ Zpos p)
               | _ => Zpos m * 1000 * 2 ^ e
               end in
      match n with
      | Zpos p =>
          SF2Prim (SFdiv prec emax (S754_finite s p 0) (S754_finite false 1000 0))
      | _ => SF2Prim (S754_zero s)
      end
  | _ => x
  end.

(** [sorted(set(l))]: the distinct members of [l] in increasing order, strings
    compared code point by code point. *)
Fixpoint str_ltb (a b : str) : bool :=
  match a, b with
  | [], [] => false
  | [], _ :: _ => true
  | _ :: _, [] => false
  | x :: a', y :: b' => (x <? y) || ((x =? y) && str_ltb a' b')
  end.

Fixpoint insert_sorted (x : str) (l : list str) : list str :=
  match l with
  | [] => [x]
  | y :: l' =>
      if str_ltb x y then x :: l
      else if str_eqb x y then l
      else y :: insert_sorted x l'
  end.

Definition sorted_set (l : list str) : list str :=
  fold_right insert_sorted [] l.

(** The values of the evidence dictionary, and the dictionary itself, in the
    order of its keys in the source. *)
Inductive pyval : Type :=
| PFloat (x : float)
| PList (l : list str).

Definition dict := list (string * pyval).

Fixpoint dict_get (k : string) (d : dict) : option pyval :=
  match d with
  | [] => None
  | (k', v) :: d' => if String.eqb k k' then Some v else dict_get k d'
  end.

(** What [classify_sentiment] returns: the label alone, or the pair of the
    label and the evidence dictionary. *)
Inductive result : Type :=
| Label (l : label)
| WithEvidence (l : label) (e : dict).

Definition result_label (r : result) : label :=
  match r with Label l => l | WithEvidence l _ => l end.

Definition result_evidence (r : result) : option dict :=
  match r with Label _ => None | WithEvidence _ e => Some e end.

(** ** The classifier *)

Section Classifier.

(** [str.lower] and [str.isalnum] of Python, tables of the Unicode database. *)
Variable str_lower : str -> str.
Variable isalnum : Z -> bool.

(** The class [\w]: alphanumeric or an underscore. *)
Definition is_word (c : Z) : bool := isalnum c || (c =? 95).

Definition opt_is_word (c : option Z) : bool :=
  match c with Some c => is_word c | None => false end.

(** [\b]: exactly one of the two neighbours is a word character (the start
    and the end of the string count as non-word). *)
Definition word_boundary (prev next : option Z) : bool :=
  xorb (opt_is_word prev) (opt_is_word next).

(** [rmatch r prev s k]: [r] matches a prefix of [s], after which [k] holds;
    [prev] is the character before [s]. *)
Fixpoint rmatch (r : regex) (prev : option Z) (s : str)
  (k : option Z -> str -> bool) : bool :=
  match r with
  | RLit l =>
      match strip_prefix l s with
      | Some s' => k (last_char l prev) s'
      | None => false
      end
  | RAlt a b => rmatch a prev s k || rmatch b prev s k
  | RSeq a b => rmatch a prev s (fun p' s' => rmatch b p' s' k)
  | ROpt a => rmatch a prev s k || k prev s
  | RPlus cls => plus_cls cls s k
  | RWordB => word_boundary prev (hd_error s) && k prev s
  | REnd => at_end s && k prev s
  end.

(** [re.search(r, s)] as a truth value: a match starts at some position. *)
Fixpoint search_from (r : regex) (prev : option Z) (s : str) : bool :=
  rmatch r prev s (fun _ _ => true)
  || match s with
     | [] => false
     | c :: s' => search_from r (Some c) s'
     end.

Definition re_search (r : regex) (s : str) : bool := search_from r None s.

(** [(did you really|for real|no way|fr)\b] *)
Definition DISBELIEF_RE : regex :=
  RSeq (RAlt (RLit (lit "did you really"))
       (RAlt (RLit (lit "for real"))
       (RAlt (RLit (lit "no way")) (RLit (lit "fr")))))
       RWordB.

(** [\.\.\.$|…$] *)
Definition ELLIPSIS_RE : regex :=
  RAlt (RSeq (RLit (lit "...")) REnd) (RSeq (RLit [0x2026]) REnd).

(** [\bnot\s+bad\b] *)
Definition NOT_BAD_RE : regex :=
  RSeq RWordB (RSeq (RLit (lit "not")) (RSeq (RPlus is_space)
       (RSeq (RLit (lit "bad")) RWordB))).

(** [\bnot\s+(so\s+)?good\b] *)
Definition NOT_GOOD_RE : regex :=
  RSeq RWordB (RSeq (RLit (lit "not")) (RSeq (RPlus is_space)
       (RSeq (ROpt (RSeq (RLit (lit "so")) (RPlus is_space)))
       (RSeq (RLit (lit "good")) RWordB)))).

(** The "shut up" idiom (lines 89-99). *)
Definition shut_up_pass (lowered : str) (st : Ctx) : Ctx :=
  match split_after (lit "shut up") lowered with
  | Some after =>
      if re_search DISBELIEF_RE after && contains_any after POS_EVENT_WORDS
      then push_pos (lit "shut up! (excited disbelief)") (add_score 1.5 st)
      else if negb (contains_any after POS_EVENT_WORDS)
           then push_neg (lit "shut up (harsh)") (sub_score 0.2 st)
           else st
  | None => st
  end.

Definition window : Z := 3.

(** [words[max(0, i - window):i]]: the words before index [i]. *)
Definition window_slice (words : list str) (i : nat) : list str :=
  let window_start := Z.to_nat (Z.max 0 (Z.of_nat i - window)) in
  slice words window_start i.

(** Lines 109-112: the flags [w_is_pos], [w_is_neg] after the test on the
    ambiguous words. *)
Definition reclassify (original : str) (words : list str) (i : nat) (w : str)
  (flags : bool * bool) : bool * bool :=
  if in_set w AMBIGUOUS then
    let lookahead := join_space (slice words (i + 1) (i + 6)) in
    if contains_any lookahead (POS_EVENT_WORDS ++ POS_WORDS)
       || contains (lit "!") (slice original i (i + 80))
    then (true, false)
    else flags
  else flags.

(** The value of [base] after lines 114-119; [None] is the [continue]. *)
Definition base_of (flags : bool * bool) : option float :=
  let '(w_is_pos, w_is_neg) := flags in
  if w_is_pos then Some 1%float
  else if w_is_neg then Some (-1)%float
  else None.

(** One iteration of the word loop (lines 103-141). *)
Definition score_word (original : str) (words : list str) (i : nat) (w : str)
  (st : Ctx) : Ctx :=
  let flags := (in_set w POS_WORDS, in_set w NEG_WORDS) in
  let flags := reclassify original words i w flags in
  match base_of flags with
  | None => st
  | Some base =>
      let ws := window_slice words i in
      let has_negator := existsb (fun t => in_set t NEGATORS) ws in
      let base := if has_negator then (base * -1)%float else base in
      let st := if has_negator then push_flipped (lit "negated:" ++ w) st
                else st in
      let has_intens := existsb (fun t => in_set t INTENSIFIERS) ws in
      let has_dim := existsb (fun t => in_set t DIMINISHERS) ws in
      let base := if has_intens then (base * 1.5)%float else base in
      let st := if has_intens then push_intens w st else st in
      let base := if has_dim then (base * 0.65)%float else base in
      let st := if has_dim then push_dim w st else st in
      let st := add_score base st in
      if (0 <? base)%float then push_pos w st else push_neg w st
  end.

(** [for i, w in enumerate(words)], from index [i] on the words [rest]. *)
Fixpoint word_loop (original : str) (words : list str) (i : nat)
  (rest : list str) (st : Ctx) : Ctx :=
  match rest with
  | [] => st
  | w :: rest' =>
      word_loop original words (S i) rest' (score_word original words i w st)
  end.

Definition word_pass (original : str) (words : list str) (st : Ctx) : Ctx :=
  word_loop original words 0 words st.

(** One iteration of the emoji loop (lines 144-150); [ch] is one character of
    the text, a string of length one.  The two sets are arguments so that the
    loop can be compared on different sets. *)
Definition emoji_step (pos neg : list str) (st : Ctx) (c : Z) : Ctx :=
  let ch := [c] in
  if in_set ch pos then push_emo ch (add_score 0.6 st)
  else if in_set ch neg then push_emo ch (sub_score 0.6 st)
  else st.

Definition emoji_loop (pos neg : list str) (original : str) (st : Ctx) : Ctx :=
  fold_left (emoji_step pos neg) original st.

Definition emoji_pass (original : str) (st : Ctx) : Ctx :=
  emoji_loop POS_EMOJI NEG_EMOJI original st.

(** Lines 153-155. *)
Definition exclaim_pass (original : str) (st : Ctx) : Ctx :=
  let exclamations := count_char 33 original in
  if (0 <? exclamations)%nat
  then add_score (float_of_nat (Nat.min exclamations 3) * 0.2)%float st
  else st.

Definition SARCASM_WORDS : list str := List.map lit
  ["great";"awesome";"amazing";"perfect";"nice"]%string.

(** Lines 158-160. *)
Definition ellipsis_pass (original : str) (st : Ctx) : Ctx :=
  if re_search ELLIPSIS_RE (strip original) then
    if existsb (fun w => in_set w (pos_hits st)) SARCASM_WORDS
    then sub_score 0.4 st
    else st
  else st.

(** Lines 163-165 and 166-168. *)
Definition not_bad_pass (lowered : str) (st : Ctx) : Ctx :=
  if re_search NOT_BAD_RE lowered
  then push_pos (lit "not bad") (add_score 1 st)
  else st.

Definition not_good_pass (lowered : str) (st : Ctx) : Ctx :=
  if re_search NOT_GOOD_RE lowered
  then push_neg (lit "not good") (sub_score 1 st)
  else st.

(** Lines 171-175. *)
Definition label_of_score (s : float) : label :=
  if (0.5 <=? s)%float then positive
  else if (s <=? -0.5)%float then negative
  else neutral.

(** The word stream of line 82. *)
Definition words_of (lowered : str) : list str :=
  List.map str_lower (findall_words lowered []).

(** The accumulator after each pass, in the order of the source. *)
Definition ctx_after_words (text : str) : Ctx :=
  let lowered := str_lower text in
  word_pass text (words_of lowered) (shut_up_pass lowered init_ctx).

Definition ctx_after_ellipsis (text : str) : Ctx :=
  ellipsis_pass text (exclaim_pass text (emoji_pass text (ctx_after_words text))).

Definition final_ctx (text : str) : Ctx :=
  let lowered := str_lower text in
  not_good_pass lowered (not_bad_pass lowered (ctx_after_ellipsis text)).

(** The dictionary of lines 178-186. *)
Definition evidence_of (st : Ctx) : dict :=
  [("score", PFloat (round3 (score st)));
   ("positive_hits", PList (sorted_set (pos_hits st)));
   ("negative_hits", PList (sorted_set (neg_hits st)));
   ("flipped_by_negation", PList (sorted_set (flipped_hits st)));
   ("intensified", PList (sorted_set (intens_hits st)));
   ("diminished", PList (sorted_set (dim_hits st)));
   ("emoji", PList (emo_hits st))]%string.

(** [not text or not text.strip()] *)
Definition is_blank (text : str) : bool :=
  negb (truthy text) || negb (truthy (strip text)).

Definition classify_sentiment (text : str) (return_evidence : bool) : result :=
  if is_blank text then
    if return_evidence then WithEvidence neutral [("score", PFloat 0)]%string
    else Label neutral
  else
    let st := final_ctx text in
    let label := label_of_score (score st) in
    if return_evidence then WithEvidence label (evidence_of st)
    else Label label.

(** The score the label is taken from: the literal [0.0] of the early return,
    or the variable [score] at line 171. *)
Definition final_score (text : str) : float :=
  if is_blank text then 0%float else score (final_ctx text).

End Classifier.

(** The classifier on ASCII tables. *)
Definition classify (text : str) (return_evidence : bool) : result :=
  classify_sentiment ascii_lower ascii_alnum text return_evidence.

Definition score_of (text : str) : float :=
  final_score ascii_lower ascii_alnum text.

(** ** The tokenizer and [is_emoji] (lines 60-65)

    [tokenize] returns the matches of one pattern, so its model needs the
    matched text and the order in which Python tries the ways to match:
    alternatives from left to right, a greedy repetition before its shorter
    forms.  [tmatch r s k] follows that order and returns what the first
    successful way leaves unread. *)

Inductive tregex : Type :=
| TLit (l : str)              (* literal text *)
| TCls (cls : Z -> bool)      (* one character of a class *)
| TAlt (a b : tregex)         (* a|b *)
| TSeq (a b : tregex)         (* ab *)
| TOpt (a : tregex)           (* (a)?, greedy *)
| TPlus (cls : Z -> bool).    (* [cls]+, greedy *)

Fixpoint plus_greedy (cls : Z -> bool) (s : str) (k : str -> option str)
  : option str :=
  match s with
  | [] => None
  | c :: s' =>
      if cls c then
        match plus_greedy cls s' k with
        | Some rest => Some rest
        | None => k s'
        end
      else None
  end.

Fixpoint tmatch (r : tregex) (s : str) (k : str -> option str) : option str :=
  match r with
  | TLit l =>
      match strip_prefix l s with
      | Some s' => k s'
      | None => None
      end
  | TCls cls =>
      match s with
      | c :: s' => if cls c then k s' else None
      | [] => None
      end
  | TAlt a b =>
      match tmatch a s k with
      | Some rest => Some rest
      | None => tmatch b s k
      end
  | TSeq a b => tmatch a s (fun s' => tmatch b s' k)
  | TOpt a =>
      match tmatch a s k with
      | Some rest => Some rest
      | None => k s
      end
  | TPlus cls => plus_greedy cls s k
  end.

(** The match that starts at the first character of [s], as the text it
    leaves. *)
Definition match_at (r : tregex) (s : str) : option str := tmatch r s Some.

(** [re.findall(r, s)] for a pattern without groups: the matches from left
    to right, each search resuming where the last match ended.  [fuel] bounds
    the number of steps; the length of the text is enough. *)
Fixpoint findall_from (r : tregex) (fuel : nat) (s : str) : list str :=
  match fuel with
  | O => []
  | S fuel' =>
      match s with
      | [] => []
      | _ :: s' =>
          match match_at r s with
          | Some rest =>
              if (List.length rest <? List.length s)%nat
              then firstn (List.length s - List.length rest) s
                   :: findall_from r fuel' rest
              else [] :: findall_from r fuel' s'
          | None => findall_from r fuel' s'
          end
      end
  end.

Definition findall (r : tregex) (s : str) : list str :=
  findall_from r (List.length s) s.

(** The class [[A-Za-z]]. *)
Definition is_ascii_letter (c : Z) : bool :=
  ((65 <=? c) && (c <=? 90)) || ((97 <=? c) && (c <=? 122)).

(** [[A-Za-z']+|[!?…]|[:;]-?\)|\.\.\.|[^\sA-Za-z]] *)
Definition TOKEN_RE : tregex :=
  TAlt (TPlus is_word_letter)
  (TAlt (TCls (fun c => (c =? 33) || (c =? 63) || (c =? 0x2026)))
  (TAlt (TSeq (TCls (fun c => (c =? 58) || (c =? 59)))
              (TSeq (TOpt (TLit (lit "-"))) (TLit (lit ")"))))
  (TAlt (TLit (lit "..."))
        (TCls (fun c => negb (is_space c || is_ascii_letter c)))))).

(** [tokenize(text)] (lines 60-62). *)
Definition tokenize (text : str) : list str := findall TOKEN_RE text.

(** [is_emoji(tok)] (lines 64-65). *)
Definition is_emoji (tok : str) : bool :=
  existsb (fun c => in_set [c] POS_EMOJI || in_set [c] NEG_EMOJI) tok.

(** A token that starts with a letter or an apostrophe. *)
Definition is_word_token (t : str) : bool :=
  match t with
  | c :: _ => is_word_letter c
  | [] => false
  end.

(** The four tags the idiom rules record among the hits. *)
Definition IDIOM_TAGS : list str := List.map lit
  ["shut up! (excited disbelief)"; "shut up (harsh)"; "not bad"; "not good"]
  %string.

(** ** Vocabulary of the statements *)

(** The six evidence collections of the record, and the reading of "all
    evidence collections empty" in which the record holds each of them. *)
Definition COLLECTION_KEYS : list string :=
  ["positive_hits"; "negative_hits"; "flipped_by_negation"; "intensified";
   "diminished"; "emoji"]%string.

(** Each of the six keys is bound to the empty list. *)
Definition collections_empty (e : dict) : Prop :=
  forall k, In k COLLECTION_KEYS -> dict_get k e = Some (PList []).

(** None of the six keys is bound. *)
Definition collections_absent (e : dict) : Prop :=
  forall k, In k COLLECTION_KEYS -> dict_get k e = None.

(** The order of [sorted] on strings. *)
Definition str_lt (a b : str) : Prop := str_ltb a b = true.

(** A character is counted when it is, as a one-character string, a member of
    one of the two emoji sets. *)
Definition is_emoji_char (c : Z) : bool :=
  in_set [c] POS_EMOJI || in_set [c] NEG_EMOJI.

(** The score after one character: 0.6 more for a positive emoji, 0.6 less
    for a negative one. *)
Definition emoji_delta (s : float) (c : Z) : float :=
  if in_set [c] POS_EMOJI then (s + 0.6)%float
  else if in_set [c] NEG_EMOJI then (s - 0.6)%float
  else s.

(** The emoji characters of a text, in order, repetitions kept. *)
Definition emoji_chars (text : str) : list str :=
  List.map (fun c => [c]) (filter is_emoji_char text).

(** The five collections reported through [sorted(set(...))]. *)
Definition DEDUP_KEYS : list string :=
  ["positive_hits"; "negative_hits"; "flipped_by_negation"; "intensified";
   "diminished"]%string.

(** The positive emoji set without its two-code-point entry. *)
Definition POS_EMOJI_SINGLE : list str :=
  filter (fun e => negb (str_eqb e red_heart)) POS_EMOJI.

(** The words at the three indices before [i], those that exist, in order. *)
Definition preceding3 (words : list str) (i : nat) : list str :=
  flat_map
    (fun d => if (d <=? i)%nat
              then match nth_error words (i - d) with
                   | Some w => [w]
                   | None => []
                   end
              else [])
    [3; 2; 1]%nat.

(** Some word of [ws] is a member of [S]. *)
Definition any_in (S : list str) (ws : list str) : bool :=
  existsb (fun t => in_set t S) ws.

(** The contribution of a lexicon word: the base value, its sign flipped
    under negation, then scaled by 1.5 when intensified, then by 0.65 when
    diminished. *)
Definition contribution (base : float) (negated intensified diminished : bool)
  : float :=
  let v := if negated then (base * -1)%float else base in
  let v := if intensified then (v * 1.5)%float else v in
  if diminished then (v * 0.65)%float else v.

(** The continuation of a search: whatever follows the match is accepted. *)
Definition ktrue : option Z -> str -> bool := fun _ _ => true.

(** [s] ends in [suffix]. *)
Definition ends_with (suffix s : str) : Prop := exists pre, s = pre ++ suffix.

(** The one-character ellipsis, U+2026. *)
Definition ELLIPSIS_GLYPH : str := [0x2026].

(** [phrase] occurs in [s] with a word boundary on each side. *)
Definition occurs_as_word (isalnum : Z -> bool) (phrase s : str) : Prop :=
  exists pre post, s = pre ++ phrase ++ post /\
    word_boundary isalnum (last_char pre None) (hd_error phrase) = true /\
    word_boundary isalnum (last_char phrase None) (hd_error post) = true.

(** A word of the positive or of the negative lexicon. *)
Definition lexicon_word (w : str) : bool :=
  in_set w POS_WORDS || in_set w NEG_WORDS.

(** [w] is recorded as a positive or as a negative hit. *)
Definition among_hits (w : str) (st : Ctx) : Prop :=
  In w (pos_hits st) \/ In w (neg_hits st).

(** The alternatives of [DISBELIEF_RE]. *)
Definition MARKERS : list str := List.map lit
  ["did you really"; "for real"; "no way"; "fr"]%string.

(** Some positive-event word occurs in [s] as a substring. *)
Definition has_event (s : str) : Prop :=
  exists w a b, In w POS_EVENT_WORDS /\ s = a ++ w ++ b.

(** The reading of "contains a positive-event-context word" on the words of
    the text: some word of its word stream is in the set. *)
Definition has_event_word (s : str) : bool :=
  any_in POS_EVENT_WORDS (findall_words s []).

(** A marker occurs in [s] as a substring that ends at a word boundary. *)
Definition has_marker (isalnum : Z -> bool) (s : str) : Prop :=
  exists m a b, In m MARKERS /\ s = a ++ m ++ b /\
    word_boundary isalnum (last_char m None) (hd_error b) = true.

(** A recorded hit is a lexicon word of the word stream or an idiom tag. *)
Definition hit_ok (words : list str) (x : str) : Prop :=
  (In x words /\ lexicon_word x = true) \/ In x IDIOM_TAGS.

(** What the evidence lists of an accumulator keep true of each other. *)
Definition evidence_inv (words : list str) (st : Ctx) : Prop :=
  (forall x, among_hits x st -> hit_ok words x) /\
  (forall w, In w (intens_hits st) -> among_hits w st) /\
  (forall w, In w (dim_hits st) -> among_hits w st) /\
  (forall t, In t (flipped_hits st) ->
             exists w, t = lit "negated:" ++ w /\ among_hits w st).

(** A pass that may only add idiom tags to the hits. *)
Definition tag_step (st st' : Ctx) : Prop :=
  intens_hits st' = intens_hits st /\ dim_hits st' = dim_hits st /\
  flipped_hits st' = flipped_hits st /\
  (forall x, among_hits x st -> among_hits x st') /\
  (forall x, among_hits x st' -> among_hits x st \/ In x IDIOM_TAGS).

(** Two characters that are equal, or both ASCII letters; two texts that
    agree in this way character by character. *)
Definition same_or_letters (c1 c2 : Z) : Prop :=
  c1 = c2 \/ (is_ascii_letter c1 = true /\ is_ascii_letter c2 = true).

Definition same_outside_letters (t1 t2 : str) : Prop :=
  Forall2 same_or_letters t1 t2.

(** * Properties *)

(** ** Order on binary64 *)

Lemma SFcompare_antisym (x y : spec_float) (c : comparison) :
  SFcompare x y = Some c -> SFcompare y x = Some (CompOpp c).
Proof.
  destruct x as [sx|sx| |sx mx ex], y as [sy|sy| |sy my ey]; simpl;
    try discriminate;
    try (destruct sx; intros [= <-]; reflexivity);
    try (destruct sy; intros [= <-]; reflexivity);
    try (intros [= <-]; reflexivity).
  - destruct sx, sy; intros [= <-]; reflexivity.
  - destruct sx, sy; intros [= <-]; try reflexivity;
      rewrite (Z.compare_antisym ex ey);
      destruct (ex ?= ey)%Z; simpl; try reflexivity;
      change (PosDef.Pos.compare_cont Eq my mx) with (my ?= mx)%positive;
      change (PosDef.Pos.compare_cont Eq mx my) with (mx ?= my)%positive;
      rewrite (Pos.compare_antisym mx my);
      destruct (mx ?= my)%positive; reflexivity.
Qed.

Lemma float_ltb_not_leb (a b : float) :
  (a <? b)%float = true -> (b <=? a)%float = false.
Proof.
  rewrite ltb_spec, leb_spec. unfold SFltb, SFleb.
  destruct (SFcompare (Prim2SF a) (Prim2SF b)) as [c|] eqn:E; try discriminate.
  rewrite (SFcompare_antisym _ _ _ E).
  destruct c; simpl; congruence.
Qed.

Lemma float_leb_trans_lt (a b c : float) :
  (a <=? b)%float = true -> (b <=? c)%float = true ->
  (c <? a)%float = true -> False.
Proof.
  rewrite !leb_spec, ltb_spec. unfold SFleb, SFltb.
  destruct (Prim2SF a) as [sa|sa| |sa ma ea], (Prim2SF b) as [sb|sb| |sb mb eb],
    (Prim2SF c) as [sc|sc| |sc mc ec]; simpl; try discriminate;
    try (destruct sa; discriminate); try (destruct sb; discriminate);
    try (destruct sc; discriminate);
    try (destruct sa, sb; discriminate); try (destruct sb, sc; discriminate);
    try (destruct sa, sc; discriminate);
    try (destruct sa, sb, sc; discriminate).
  all: destruct sa, sb, sc; simpl; try discriminate.
  all: destruct (ea ?= eb)%Z eqn:E1; try discriminate;
    destruct (eb ?= ec)%Z eqn:E2; try discriminate;
    destruct (ec ?= ea)%Z eqn:E3; try discriminate;
    try (apply Z.compare_eq in E1); try (apply Z.compare_eq in E2);
    try (apply Z.compare_eq in E3);
    rewrite ?Z.compare_lt_iff, ?Z.compare_gt_iff in *; try lia.
  all: change (PosDef.Pos.compare_cont Eq) with Pos.compare in *.
  all: destruct (ma ?= mb)%positive eqn:P1; try discriminate;
    destruct (mb ?= mc)%positive eqn:P2; try discriminate;
    destruct (mc ?= ma)%positive eqn:P3; try discriminate;
    try (apply Pos.compare_eq in P1); try (apply Pos.compare_eq in P2);
    try (apply Pos.compare_eq in P3);
    rewrite ?Pos.compare_lt_iff, ?Pos.compare_gt_iff in *; lia.
Qed.

Lemma label_of_score_positive (s : float) :
  label_of_score s = positive <-> (0.5 <=? s)%float = true.
Proof.
  unfold label_of_score.
  destruct (0.5 <=? s)%float; [tauto|].
  destruct (s <=? -0.5)%float; split; discriminate.
Qed.

Lemma label_of_score_negative (s : float) :
  label_of_score s = negative <-> (s <=? -0.5)%float = true.
Proof.
  unfold label_of_score.
  destruct (0.5 <=? s)%float eqn:Hp.
  - split; [discriminate|]. intros Hn. exfalso.
    apply (float_leb_trans_lt 0.5 s (-0.5) Hp Hn). reflexivity.
  - destruct (s <=? -0.5)%float; split; congruence.
Qed.

Lemma label_of_score_neutral (s : float) :
  label_of_score s = neutral <->
  (0.5 <=? s)%float = false /\ (s <=? -0.5)%float = false.
Proof.
  unfold label_of_score.
  destruct (0.5 <=? s)%float; [split; [discriminate|intros [? _]; discriminate]|].
  destruct (s <=? -0.5)%float; split; try discriminate; try tauto.
  intros [_ ?]; discriminate.
Qed.

Section Properties.

Variable str_lower : str -> str.
Variable isalnum : Z -> bool.

(** *** Label decision *)

Lemma classify_label (text : str) (return_evidence : bool) :
  result_label (classify_sentiment str_lower isalnum text return_evidence)
  = label_of_score (final_score str_lower isalnum text).
Proof.
  unfold classify_sentiment, final_score.
  destruct (is_blank text), return_evidence; reflexivity.
Qed.

(** C1: for every input string the returned label is fixed by the final score
    through the two thresholds: positive exactly when [0.5 <= score],
    negative exactly when [score <= -0.5], neutral in every other case, in
    particular whenever [-0.5 < score < 0.5]. *)
Theorem label_thresholds (text : str) (return_evidence : bool) :
  let s := final_score str_lower isalnum text in
  let l :=
    result_label (classify_sentiment str_lower isalnum text return_evidence) in
  (l = positive <-> (0.5 <=? s)%float = true) /\
  (l = negative <-> (s <=? -0.5)%float = true) /\
  (l = neutral <-> (0.5 <=? s)%float = false /\ (s <=? -0.5)%float = false) /\
  ((-0.5 <? s)%float = true -> (s <? 0.5)%float = true -> l = neutral).
Proof.
  intros s l. unfold l. rewrite classify_label. fold s.
  split; [apply label_of_score_positive|].
  split; [apply label_of_score_negative|].
  split; [apply label_of_score_neutral|].
  intros Hlo Hhi. apply label_of_score_neutral.
  split; apply float_ltb_not_leb; assumption.
Qed.

(** C9: asking for the evidence record changes neither the label nor the
    score: with and without the record the label is the one of the same final
    score, and the record reports that score, rounded. *)
Theorem evidence_flag_keeps_label (text : str) :
  let with_ev := classify_sentiment str_lower isalnum text true in
  let without := classify_sentiment str_lower isalnum text false in
  let s := final_score str_lower isalnum text in
  result_label with_ev = result_label without /\
  result_label without = label_of_score s /\
  result_evidence without = None /\
  exists e, result_evidence with_ev = Some e /\
            dict_get "score" e = Some (PFloat (round3 s)).
Proof.
  cbv zeta. rewrite !classify_label. repeat split.
  unfold classify_sentiment, final_score.
  - destruct (is_blank text); reflexivity.
  - unfold classify_sentiment, final_score.
    destruct (is_blank text); eexists; split; reflexivity.
Qed.

End Properties.

(** ** Strings, sets and substrings *)

Lemma str_eqb_eq (a b : str) : str_eqb a b = true <-> a = b.
Proof.
  revert b. induction a as [|x a IH]; intros [|y b]; simpl;
    try (split; [discriminate|congruence]); try tauto.
  rewrite andb_true_iff, Z.eqb_eq, IH. split.
  - intros [-> ->]. reflexivity.
  - intros [= -> ->]. auto.
Qed.

Lemma str_eqb_refl (a : str) : str_eqb a a = true.
Proof. apply str_eqb_eq. reflexivity. Qed.

Lemma in_set_In (w : str) (S : list str) : in_set w S = true <-> In w S.
Proof.
  unfold in_set. rewrite existsb_exists. split.
  - intros (x & Hx & E). apply str_eqb_eq in E. subst. assumption.
  - intros H. exists w. split; [assumption|apply str_eqb_refl].
Qed.

Lemma in_set_app (w : str) (S T : list str) :
  in_set w (S ++ T) = in_set w S || in_set w T.
Proof. unfold in_set. apply existsb_app. Qed.

Lemma strip_prefix_spec (p s r : str) :
  strip_prefix p s = Some r <-> s = p ++ r.
Proof.
  revert s. induction p as [|x p IH]; intros s; simpl.
  - split; congruence.
  - destruct s as [|y s]; [split; discriminate|].
    destruct (Z.eqb_spec x y) as [->|N].
    + rewrite IH. split; congruence.
    + split; [discriminate|]. intros [= E _]. congruence.
Qed.

Lemma strip_prefix_app (p r : str) : strip_prefix p (p ++ r) = Some r.
Proof. apply strip_prefix_spec. reflexivity. Qed.

Lemma starts_with_spec (p s : str) :
  starts_with p s = true <-> exists r, s = p ++ r.
Proof.
  unfold starts_with. destruct (strip_prefix p s) as [r|] eqn:E.
  - apply strip_prefix_spec in E. split; eauto.
  - split; [discriminate|]. intros [r Hr].
    apply strip_prefix_spec in Hr. congruence.
Qed.

(** [contains] is the substring test. *)
Lemma contains_spec (sub s : str) :
  contains sub s = true <-> exists a b, s = a ++ sub ++ b.
Proof.
  induction s as [|c s IH].
  - simpl. rewrite orb_false_r, starts_with_spec. split.
    + intros [r Hr]. exists [], r. assumption.
    + intros (a & b & H). destruct a; [exists b; assumption|discriminate].
  - cbn [contains]. rewrite orb_true_iff, starts_with_spec, IH. split.
    + intros [[r Hr]|(a & b & H)].
      * exists [], r. assumption.
      * exists (c :: a), b. simpl. congruence.
    + intros (a & b & H). destruct a as [|x a].
      * left. exists b. assumption.
      * right. injection H as _ H. eauto.
Qed.

Lemma contains_any_spec (s : str) (vocab : list str) :
  contains_any s vocab = true <->
  exists w a b, In w vocab /\ s = a ++ w ++ b.
Proof.
  unfold contains_any. rewrite existsb_exists. split.
  - intros (w & Hw & H). apply contains_spec in H as (a & b & H). eauto.
  - intros (w & a & b & Hw & H). exists w. split; [assumption|].
    apply contains_spec. eauto.
Qed.

(** [split_after] cuts at the first occurrence. *)
Lemma split_after_spec (sep s after : str) :
  split_after sep s = Some after <->
  exists pre, s = pre ++ sep ++ after /\
    forall pre' after', s = pre' ++ sep ++ after' ->
      (List.length pre <= List.length pre')%nat.
Proof.
  revert after. induction s as [|c s IH]; intros after.
  - simpl. destruct (strip_prefix sep []) as [r|] eqn:E.
    + apply strip_prefix_spec in E. split.
      * intros [= ->]. exists []. split; [assumption|]. intros; simpl; lia.
      * intros (pre & H & _). destruct pre; [|discriminate].
        simpl in H. rewrite E in H. apply app_inv_head in H. congruence.
    + split; [discriminate|]. intros (pre & H & _).
      destruct pre; [|discriminate]. simpl in H.
      apply strip_prefix_spec in H. congruence.
  - cbn [split_after]. destruct (strip_prefix sep (c :: s)) as [r|] eqn:E.
    + apply strip_prefix_spec in E. split.
      * intros [= ->]. exists []. split; [assumption|]. intros; simpl; lia.
      * intros (pre & H & Hmin). specialize (Hmin [] r E).
        destruct pre; [|simpl in Hmin; lia].
        simpl in H. rewrite E in H. apply app_inv_head in H. congruence.
    + rewrite IH. split.
      * intros (pre & H & Hmin). exists (c :: pre). split; [simpl; congruence|].
        intros [|x pre'] after' H'.
        -- simpl in H'. apply strip_prefix_spec in H'. congruence.
        -- injection H' as _ H'. apply Hmin in H'. simpl. lia.
      * intros (pre & H & Hmin). destruct pre as [|x pre].
        -- simpl in H. apply strip_prefix_spec in H. congruence.
        -- injection H as _ H. exists pre. split; [assumption|].
           intros pre' after' H'.
           specialize (Hmin (c :: pre') after'). simpl in Hmin.
           assert (c :: s = c :: pre' ++ sep ++ after') as G by congruence.
           apply Hmin in G. lia.
Qed.

Lemma split_after_none (sep s : str) :
  split_after sep s = None <-> contains sep s = false.
Proof.
  induction s as [|c s IH].
  - simpl. unfold starts_with. destruct (strip_prefix sep []); simpl;
      split; congruence.
  - cbn [split_after contains]. unfold starts_with.
    destruct (strip_prefix sep (c :: s)); simpl; [split; discriminate|].
    exact IH.
Qed.

(** ** Whitespace and [strip] *)

Lemma lstrip_all_space (s : str) :
  lstrip s = [] <-> forallb is_space s = true.
Proof.
  induction s as [|c s IH]; simpl; [tauto|].
  destruct (is_space c); simpl; [exact IH|split; discriminate].
Qed.

Lemma lstrip_head (s r : str) (c : Z) :
  lstrip s = c :: r -> is_space c = false.
Proof.
  induction s as [|x s IH]; simpl; [discriminate|].
  destruct (is_space x) eqn:E; [exact IH|]. intros [= <- _]. exact E.
Qed.

Lemma forallb_rev {A} (f : A -> bool) (l : list A) :
  forallb f (rev l) = forallb f l.
Proof.
  induction l as [|x l IH]; simpl; [reflexivity|].
  rewrite forallb_app, IH. simpl. rewrite andb_true_r. apply andb_comm.
Qed.

Lemma strip_nil_iff (s : str) :
  strip s = [] <-> forallb is_space s = true.
Proof.
  unfold strip. split.
  - intros H. apply (f_equal (@rev Z)) in H. rewrite rev_involutive in H.
    simpl in H. apply lstrip_all_space in H. rewrite forallb_rev in H.
    destruct (lstrip s) as [|c r] eqn:E; [apply lstrip_all_space; exact E|].
    apply lstrip_head in E. simpl in H. rewrite E in H. discriminate.
  - intros H. apply lstrip_all_space in H. rewrite H. reflexivity.
Qed.

(** The last character of a stripped string is not whitespace. *)
Lemma strip_last (s pre : str) (c : Z) :
  strip s = pre ++ [c] -> is_space c = false.
Proof.
  unfold strip. intros H. apply (f_equal (@rev Z)) in H.
  rewrite rev_involutive, rev_app_distr in H. simpl in H.
  apply lstrip_head in H. exact H.
Qed.

Lemma is_blank_iff (text : str) :
  is_blank text = true <-> forallb is_space text = true.
Proof.
  unfold is_blank. rewrite <- strip_nil_iff. destruct text as [|c text].
  - simpl. tauto.
  - cbn [truthy negb orb]. destruct (strip (c :: text)); simpl;
      split; congruence.
Qed.

Section Blank.

Variable str_lower : str -> str.
Variable isalnum : Z -> bool.

(** C5, as amended: an input that is empty or all whitespace returns the
    label neutral with score 0.0 without running any pass (the result is the
    constant of the early return); the evidence record then holds the score
    alone, and none of the six collections. *)
Theorem blank_input_short_circuit (text : str) (return_evidence : bool) :
  forallb is_space text = true ->
  result_label (classify_sentiment str_lower isalnum text return_evidence)
    = neutral /\
  final_score str_lower isalnum text = 0%float /\
  classify_sentiment str_lower isalnum text false = Label neutral /\
  classify_sentiment str_lower isalnum text true
    = WithEvidence neutral [("score"%string, PFloat 0)] /\
  collections_absent [("score"%string, PFloat 0)].
Proof.
  intros H. apply is_blank_iff in H.
  unfold classify_sentiment, final_score. rewrite H.
  repeat split; try (destruct return_evidence; reflexivity).
  intros k Hk. simpl in Hk.
  repeat (destruct Hk as [<-|Hk]; [reflexivity|]). contradiction.
Qed.

End Blank.

Lemma blank_input_short_circuit_witness :
  forallb is_space (lit "   ") = true /\
  classify_sentiment ascii_lower ascii_alnum (lit "   ") true
    = WithEvidence neutral [("score"%string, PFloat 0)].
Proof.
  split; [reflexivity|].
  apply (blank_input_short_circuit ascii_lower ascii_alnum (lit "   ") true).
  reflexivity.
Defined.

(** C5 as stated fails on the empty string: the record returned for it
    holds no evidence collection, so none of them is an empty one. *)
Lemma blank_input_collections_not_empty :
  ~ (exists e, result_evidence (classify [] true) = Some e /\
               collections_empty e).
Proof.
  intros (e & He & Hc). injection He as <-.
  specialize (Hc "emoji"%string). simpl in Hc.
  assert (None = Some (PList [])) as G by (apply Hc; tauto).
  discriminate.
Qed.

(** ** [sorted(set(l))] *)

Lemma str_ltb_irrefl (a : str) : str_ltb a a = false.
Proof.
  induction a as [|x a IH]; simpl; [reflexivity|].
  rewrite Z.ltb_irrefl, Z.eqb_refl, IH. reflexivity.
Qed.

Lemma str_ltb_trans (a b c : str) :
  str_ltb a b = true -> str_ltb b c = true -> str_ltb a c = true.
Proof.
  revert b c. induction a as [|x a IH]; intros [|y b] [|z c]; simpl;
    try discriminate; try reflexivity.
  rewrite !orb_true_iff, !andb_true_iff, !Z.ltb_lt, !Z.eqb_eq.
  intros [H1|[-> H1]] [H2|[-> H2]]; try (left; lia).
  right. split; [reflexivity|]. exact (IH _ _ H1 H2).
Qed.

Lemma str_ltb_total (a b : str) :
  str_ltb a b = false -> str_eqb a b = false -> str_ltb b a = true.
Proof.
  revert b. induction a as [|x a IH]; intros [|y b]; simpl;
    try discriminate; try reflexivity.
  rewrite (Z.eqb_sym y x).
  destruct (Z.ltb_spec x y), (Z.eqb_spec x y), (Z.ltb_spec y x); simpl;
    try discriminate; try reflexivity; try lia.
  apply IH.
Qed.

Lemma insert_sorted_In (x z : str) (l : list str) :
  In z (insert_sorted x l) <-> z = x \/ In z l.
Proof.
  induction l as [|y l IH]; simpl; [intuition congruence|].
  destruct (str_ltb x y); simpl; [intuition congruence|].
  destruct (str_eqb x y) eqn:E; simpl.
  - apply str_eqb_eq in E. subst. intuition congruence.
  - rewrite IH. intuition congruence.
Qed.

Lemma sorted_set_In (z : str) (l : list str) :
  In z (sorted_set l) <-> In z l.
Proof.
  induction l as [|x l IH]; simpl; [tauto|].
  rewrite insert_sorted_In, IH. intuition congruence.
Qed.

Lemma insert_sorted_sorted (x : str) (l : list str) :
  StronglySorted str_lt l -> StronglySorted str_lt (insert_sorted x l).
Proof.
  induction 1 as [|y l Hs IH Hy]; simpl.
  - constructor; constructor.
  - destruct (str_ltb x y) eqn:L.
    + constructor; [constructor; assumption|].
      constructor; [exact L|].
      rewrite Forall_forall in *. intros z Hz.
      exact (str_ltb_trans _ _ _ L (Hy z Hz)).
    + destruct (str_eqb x y) eqn:E; [constructor; assumption|].
      constructor; [exact IH|].
      rewrite Forall_forall in *. intros z Hz.
      apply insert_sorted_In in Hz as [->|Hz]; [|auto].
      apply str_ltb_total; assumption.
Qed.

Lemma sorted_set_sorted (l : list str) : StronglySorted str_lt (sorted_set l).
Proof.
  induction l as [|x l IH]; simpl; [constructor|].
  apply insert_sorted_sorted. exact IH.
Qed.

Lemma strictly_sorted_NoDup (l : list str) :
  StronglySorted str_lt l -> NoDup l.
Proof.
  induction 1 as [|y l Hs IH Hy]; constructor; [|exact IH].
  intros Hin. rewrite Forall_forall in Hy. specialize (Hy y Hin).
  unfold str_lt in Hy. rewrite str_ltb_irrefl in Hy. discriminate.
Qed.

Lemma sorted_set_NoDup (l : list str) : NoDup (sorted_set l).
Proof. apply strictly_sorted_NoDup, sorted_set_sorted. Qed.

(** ** Emoji pass and reported evidence *)

Ltac split_ifs :=
  repeat match goal with
    | |- context [if ?b then _ else _] => destruct b
    | |- context [match ?x with Some _ => _ | None => _ end] => destruct x
    end.

Lemma emoji_loop_spec (text : str) (st : Ctx) :
  emoji_pass text st
  = mkCtx (fold_left emoji_delta text (score st)) (pos_hits st) (neg_hits st)
          (flipped_hits st) (intens_hits st) (dim_hits st)
          (emo_hits st ++ emoji_chars text).
Proof.
  unfold emoji_pass, emoji_loop, emoji_chars. revert st.
  induction text as [|c text IH]; intros st; cbn [fold_left filter map].
  - rewrite app_nil_r. destruct st; reflexivity.
  - rewrite IH. unfold emoji_step.
    assert (Hd : forall s, emoji_delta s c
              = if in_set [c] POS_EMOJI then (s + 0.6)%float
                else if in_set [c] NEG_EMOJI then (s - 0.6)%float else s)
      by reflexivity.
    assert (Hf : is_emoji_char c = in_set [c] POS_EMOJI || in_set [c] NEG_EMOJI)
      by reflexivity.
    rewrite Hd, Hf.
    destruct (in_set [c] POS_EMOJI); [|destruct (in_set [c] NEG_EMOJI)];
      cbn [orb map score emo_hits add_score sub_score push_emo pos_hits
           neg_hits flipped_hits intens_hits dim_hits];
      rewrite <- ?app_assoc; reflexivity.
Qed.

Section Emoji.

Variable str_lower : str -> str.
Variable isalnum : Z -> bool.

Lemma shut_up_pass_emo (lowered : str) (st : Ctx) :
  emo_hits (shut_up_pass isalnum lowered st) = emo_hits st.
Proof. unfold shut_up_pass. split_ifs; reflexivity. Qed.

Lemma score_word_emo (original : str) (words : list str) (i : nat) (w : str)
  (st : Ctx) :
  emo_hits (score_word original words i w st) = emo_hits st.
Proof.
  unfold score_word. destruct (base_of _); [|reflexivity].
  cbv zeta. split_ifs; reflexivity.
Qed.

Lemma word_loop_emo (original : str) (words rest : list str) (i : nat)
  (st : Ctx) :
  emo_hits (word_loop original words i rest st) = emo_hits st.
Proof.
  revert i st. induction rest as [|w rest IH]; intros i st; simpl;
    [reflexivity|]. rewrite IH. apply score_word_emo.
Qed.

Lemma exclaim_pass_frame (original : str) (st : Ctx) :
  pos_hits (exclaim_pass original st) = pos_hits st /\
  neg_hits (exclaim_pass original st) = neg_hits st /\
  emo_hits (exclaim_pass original st) = emo_hits st.
Proof. unfold exclaim_pass. cbv zeta. split_ifs; auto. Qed.

Lemma ellipsis_pass_frame (original : str) (st : Ctx) :
  pos_hits (ellipsis_pass isalnum original st) = pos_hits st /\
  neg_hits (ellipsis_pass isalnum original st) = neg_hits st /\
  emo_hits (ellipsis_pass isalnum original st) = emo_hits st.
Proof. unfold ellipsis_pass. split_ifs; auto. Qed.

Lemma not_bad_pass_emo (lowered : str) (st : Ctx) :
  emo_hits (not_bad_pass isalnum lowered st) = emo_hits st.
Proof. unfold not_bad_pass. split_ifs; reflexivity. Qed.

Lemma not_good_pass_emo (lowered : str) (st : Ctx) :
  emo_hits (not_good_pass isalnum lowered st) = emo_hits st.
Proof. unfold not_good_pass. split_ifs; reflexivity. Qed.

Lemma final_ctx_emo (text : str) :
  emo_hits (final_ctx str_lower isalnum text) = emoji_chars text.
Proof.
  unfold final_ctx, ctx_after_ellipsis, ctx_after_words, word_pass.
  cbv zeta. rewrite not_good_pass_emo, not_bad_pass_emo.
  rewrite (proj2 (proj2 (ellipsis_pass_frame _ _))).
  rewrite (proj2 (proj2 (exclaim_pass_frame _ _))).
  rewrite emoji_loop_spec. simpl.
  rewrite word_loop_emo, shut_up_pass_emo. reflexivity.
Qed.

(** C6: the emoji loop adds 0.6 for each character of the positive set and
    subtracts 0.6 for each character of the negative set, one character at a
    time, and appends each such character to the emoji list, in order and
    with repetitions; no other pass touches that list, so on a text that is
    not blank the reported "emoji" entry is the list of the emoji characters
    of the text as they occur, while the five other collections are reported
    without duplicates (and sorted, with the members accumulated). *)
Theorem emoji_pass_and_evidence (text : str) :
  forallb is_space text = false ->
  (forall st,
     score (emoji_pass text st) = fold_left emoji_delta text (score st) /\
     emo_hits (emoji_pass text st) = emo_hits st ++ emoji_chars text) /\
  exists l e,
    classify_sentiment str_lower isalnum text true = WithEvidence l e /\
    dict_get "emoji" e = Some (PList (emoji_chars text)) /\
    forall k, In k DEDUP_KEYS ->
      exists hits, dict_get k e = Some (PList hits) /\
                   NoDup hits /\ StronglySorted str_lt hits.
Proof.
  intros Hb. split.
  - intros st. rewrite emoji_loop_spec. split; reflexivity.
  - unfold classify_sentiment.
    destruct (is_blank text) eqn:B;
      [apply is_blank_iff in B; congruence|].
    eexists; eexists. split; [reflexivity|]. split.
    + simpl. rewrite final_ctx_emo. reflexivity.
    + intros k Hk. simpl in Hk.
      repeat (destruct Hk as [<-|Hk];
        [eexists; split; [reflexivity|];
         split; [apply sorted_set_NoDup|apply sorted_set_sorted]|]).
      contradiction.
Qed.

End Emoji.

Lemma emoji_pass_and_evidence_witness :
  forallb is_space [0x1F642; 0x274C; 0x1F642] = false /\
  exists l e,
    classify_sentiment ascii_lower ascii_alnum [0x1F642; 0x274C; 0x1F642] true
      = WithEvidence l e /\
    dict_get "emoji" e = Some (PList [[0x1F642]; [0x274C]; [0x1F642]]) /\
    forall k, In k DEDUP_KEYS ->
      exists hits, dict_get k e = Some (PList hits) /\
                   NoDup hits /\ StronglySorted str_lt hits.
Proof.
  split; [reflexivity|].
  apply (emoji_pass_and_evidence ascii_lower ascii_alnum
           [0x1F642; 0x274C; 0x1F642]).
  reflexivity.
Defined.

Lemma in_pos_emoji_single (c : Z) :
  in_set [c] POS_EMOJI = in_set [c] POS_EMOJI_SINGLE.
Proof.
  unfold in_set, POS_EMOJI_SINGLE, POS_EMOJI, red_heart.
  cbn [existsb filter str_eqb negb Z.eqb Pos.eqb andb].
  rewrite !andb_true_r, andb_false_r. reflexivity.
Qed.

(** C10: the emoji loop tests one character at a time, and no one-character
    string equals the two-code-point red heart of the positive set: on every
    input the loop does what it would do with that entry removed from the
    set, and the text made of that red heart alone scores 0.0, is labelled
    neutral and reports no emoji. *)
Theorem red_heart_never_counted :
  (forall c, str_eqb [c] red_heart = false) /\
  (forall text st,
     emoji_pass text st = emoji_loop POS_EMOJI_SINGLE NEG_EMOJI text st) /\
  In red_heart POS_EMOJI /\
  score_of red_heart = 0%float /\
  classify red_heart false = Label neutral /\
  classify red_heart true
    = WithEvidence neutral
        [("score", PFloat 0); ("positive_hits", PList []);
         ("negative_hits", PList []); ("flipped_by_negation", PList []);
         ("intensified", PList []); ("diminished", PList []);
         ("emoji", PList [])]%string.
Proof.
  split; [|split; [|split; [|split; [|split]]]].
  - intros c. simpl. apply andb_false_r.
  - intros text. unfold emoji_pass, emoji_loop.
    induction text as [|c text IH]; intros st; [reflexivity|].
    cbn [fold_left]. rewrite IH. f_equal.
    unfold emoji_step. rewrite in_pos_emoji_single. reflexivity.
  - apply in_set_In. reflexivity.
  - vm_compute. reflexivity.
  - vm_compute. reflexivity.
  - vm_compute. reflexivity.
Qed.

(** ** The word loop *)

Lemma firstn_skipn_cons {A} (n k : nat) (l : list A) :
  firstn (S n) (skipn k l)
  = match nth_error l k with
    | Some x => x :: firstn n (skipn (S k) l)
    | None => []
    end.
Proof.
  revert l. induction k as [|k IH]; intros [|x l]; try reflexivity.
  apply (IH l).
Qed.

Lemma window_slice_preceding3 (words : list str) (i : nat) :
  (i < List.length words)%nat -> window_slice words i = preceding3 words i.
Proof.
  intros Hi. unfold window_slice, preceding3, slice, window.
  destruct i as [|[|[|k]]].
  - reflexivity.
  - cbn. destruct words as [|a words]; [simpl in Hi; lia|reflexivity].
  - cbn. destruct words as [|a [|b words]]; try (simpl in Hi; lia).
    reflexivity.
  - replace (Z.to_nat (Z.max 0 (Z.of_nat (S (S (S k))) - 3))) with k by lia.
    replace (S (S (S k)) - k)%nat with 3%nat by lia.
    cbn [flat_map Nat.leb Nat.sub app].
    replace (k <=? k)%nat with true by (symmetry; apply Nat.leb_refl).
    rewrite Nat.sub_0_r.
    assert (exists a b c, nth_error words k = Some a /\
              nth_error words (S k) = Some b /\
              nth_error words (S (S k)) = Some c) as (a & b & c & Ha & Hb & Hc).
    { destruct (nth_error words k) as [a|] eqn:Ea;
        [|apply nth_error_None in Ea; lia].
      destruct (nth_error words (S k)) as [b|] eqn:Eb;
        [|apply nth_error_None in Eb; lia].
      destruct (nth_error words (S (S k))) as [c|] eqn:Ec;
        [|apply nth_error_None in Ec; lia].
      exists a, b, c. repeat split. }
    rewrite !firstn_skipn_cons, Ha, Hb, Hc.
    replace (S k - k)%nat with 1%nat by lia.
    replace (k - k)%nat with 0%nat by lia.
    reflexivity.
Qed.

Lemma ambiguous_in_pos_words (w : str) :
  in_set w AMBIGUOUS = true -> in_set w POS_WORDS = true.
Proof.
  rewrite !in_set_In. intros H.
  assert (forallb (fun a => in_set a POS_WORDS) AMBIGUOUS = true) as F
    by (vm_compute; reflexivity).
  rewrite forallb_forall in F. apply in_set_In, F, H.
Qed.

(** The test on the ambiguous words never changes the base value: these
    words are members of [POS_WORDS], so their flag is set before the test. *)
Lemma base_of_reclassify (original : str) (words : list str) (i : nat)
  (w : str) :
  base_of (reclassify original words i w
             (in_set w POS_WORDS, in_set w NEG_WORDS))
  = if in_set w POS_WORDS then Some 1%float
    else if in_set w NEG_WORDS then Some (-1)%float
    else None.
Proof.
  unfold reclassify. destruct (in_set w AMBIGUOUS) eqn:A; [|reflexivity].
  rewrite (ambiguous_in_pos_words w A). cbv zeta.
  destruct (_ || _); reflexivity.
Qed.

(** [word_pass] visits the words with their indices, left to right. *)
Lemma word_loop_fold (original : str) (words rest : list str) (i : nat)
  (st : Ctx) :
  word_loop original words i rest st
  = fold_left (fun st iw => score_word original words (fst iw) (snd iw) st)
      (combine (seq i (List.length rest)) rest) st.
Proof.
  revert i st. induction rest as [|w rest IH]; intros i st; [reflexivity|].
  cbn [word_loop List.length seq combine fold_left fst snd]. apply IH.
Qed.

(** C2: a word [w] at index [i] of the word stream that is in the positive
    lexicon (base +1) or in the negative one (base -1) contributes its base
    value, flipped when one of the three preceding words is a negator, then
    multiplied by 1.5 when one of them is an intensifier, then by 0.65 when
    one of them is a diminisher; the result is added to the running score and
    the word goes to the positive or the negative hits by the sign of that
    result, which is the lexicon polarity exactly when there is no negation.
    A word of neither lexicon leaves the accumulator as it is. *)
Theorem score_word_spec (original : str) (words : list str) (i : nat)
  (w : str) (st : Ctx) :
  nth_error words i = Some w ->
  let win := preceding3 words i in
  let negated := any_in NEGATORS win in
  let intensified := any_in INTENSIFIERS win in
  let diminished := any_in DIMINISHERS win in
  let st' := score_word original words i w st in
  (in_set w POS_WORDS || in_set w NEG_WORDS = true ->
   let base := if in_set w POS_WORDS then 1%float else (-1)%float in
   let v := contribution base negated intensified diminished in
   score st' = (score st + v)%float /\
   (0 <? v)%float = xorb (in_set w POS_WORDS) negated /\
   pos_hits st' = (if (0 <? v)%float then pos_hits st ++ [w] else pos_hits st) /\
   neg_hits st' = (if (0 <? v)%float then neg_hits st else neg_hits st ++ [w]) /\
   flipped_hits st' = (if negated then flipped_hits st ++ [lit "negated:" ++ w]
                       else flipped_hits st) /\
   intens_hits st' = (if intensified then intens_hits st ++ [w]
                      else intens_hits st) /\
   dim_hits st' = (if diminished then dim_hits st ++ [w] else dim_hits st) /\
   emo_hits st' = emo_hits st) /\
  (in_set w POS_WORDS = false -> in_set w NEG_WORDS = false -> st' = st).
Proof.
  intros Hw. cbv zeta. unfold score_word.
  rewrite base_of_reclassify.
  rewrite window_slice_preceding3
    by (apply nth_error_Some; congruence).
  fold (any_in NEGATORS (preceding3 words i)).
  fold (any_in INTENSIFIERS (preceding3 words i)).
  fold (any_in DIMINISHERS (preceding3 words i)).
  split.
  - intros Hlex. unfold contribution.
    destruct (in_set w POS_WORDS);
      [|destruct (in_set w NEG_WORDS); [|discriminate Hlex]];
      destruct (any_in NEGATORS _), (any_in INTENSIFIERS _),
        (any_in DIMINISHERS _); cbv zeta;
      match goal with
      | |- context [if ?c then push_pos _ _ else _] =>
          let b := eval vm_compute in c in
          change c with b
      end; cbv iota; repeat split; vm_compute; reflexivity.
  - intros -> ->. reflexivity.
Qed.

Lemma score_word_spec_witness :
  nth_error (List.map lit ["this"; "is"; "not"; "great"]%string) 3
    = Some (lit "great") /\
  score (score_word (lit "This is not great")
           (List.map lit ["this"; "is"; "not"; "great"]%string) 3
           (lit "great") init_ctx)
    = (0 + -1)%float.
Proof.
  split; [reflexivity|].
  pose proof (score_word_spec (lit "This is not great")
                (List.map lit ["this"; "is"; "not"; "great"]%string) 3
                (lit "great") init_ctx eq_refl) as [H _].
  specialize (H eq_refl). destruct H as [Hs _].
  rewrite Hs. vm_compute. reflexivity.
Defined.

(** C3 fails on the code: the five ambiguous words are members of
    [POS_WORDS], so the flag [w_is_pos] is set before the lookahead is
    consulted and the test of lines 109-112 has no effect.  Every occurrence
    has base value +1, whatever follows it; the text "sick", with an empty
    lookahead and no exclamation mark, scores 1.0 and is labelled positive. *)
Theorem ambiguous_word_always_positive :
  (forall original words i w,
     In w AMBIGUOUS ->
     base_of (reclassify original words i w
                (in_set w POS_WORDS, in_set w NEG_WORDS)) = Some 1%float) /\
  contains_any (join_space (slice [lit "sick"] 1 6))
    (POS_EVENT_WORDS ++ POS_WORDS) = false /\
  contains (lit "!") (lit "sick") = false /\
  score_of (lit "sick") = 1%float /\
  classify (lit "sick") false = Label positive.
Proof.
  split; [|repeat split; vm_compute; reflexivity].
  intros original words i w Hw. rewrite base_of_reclassify.
  apply in_set_In, ambiguous_in_pos_words in Hw. rewrite Hw. reflexivity.
Qed.

(** ** Searching with a regular expression *)

Lemma last_char_cons (c : Z) (pre : str) (prev : option Z) :
  last_char (c :: pre) prev = last_char pre (Some c).
Proof.
  unfold last_char. simpl. destruct (rev pre) as [|x r]; reflexivity.
Qed.

Section Search.

Variable isalnum : Z -> bool.

(** A match exists from some position on: the text splits into what is
    skipped and a rest the expression matches a prefix of. *)
Lemma search_from_iff (r : regex) (prev : option Z) (s : str) :
  search_from isalnum r prev s = true <->
  exists pre rest, s = pre ++ rest /\
    rmatch isalnum r (last_char pre prev) rest ktrue = true.
Proof.
  revert prev. induction s as [|c s IH]; intros prev.
  - cbn [search_from]. rewrite orb_false_r. split.
    + intros H. exists [], []. split; [reflexivity|exact H].
    + intros (pre & rest & E & H). symmetry in E.
      apply app_eq_nil in E as [-> ->]. exact H.
  - cbn [search_from]. rewrite orb_true_iff, IH. split.
    + intros [H|(pre & rest & E & H)].
      * exists [], (c :: s). split; [reflexivity|exact H].
      * exists (c :: pre), rest. split; [simpl; congruence|].
        rewrite last_char_cons. exact H.
    + intros (pre & rest & E & H). destruct pre as [|x pre].
      * left. simpl in E. subst rest. exact H.
      * right. injection E as <- E. exists pre, rest.
        split; [exact E|]. rewrite <- (last_char_cons c pre prev). exact H.
Qed.

End Search.

(** ** Trailing ellipsis *)

Lemma at_end_cases (s : str) : at_end s = true -> s = [] \/ s = [10].
Proof.
  destruct s as [|c [|d s]]; simpl; intros H; try discriminate; auto.
  apply Z.eqb_eq in H. subst. auto.
Qed.

Section Ellipsis.

Variable str_lower : str -> str.
Variable isalnum : Z -> bool.

Lemma ellipsis_rmatch (prev : option Z) (rest : str) :
  rmatch isalnum ELLIPSIS_RE prev rest ktrue = true <->
  exists r, (rest = lit "..." ++ r \/ rest = ELLIPSIS_GLYPH ++ r) /\
            at_end r = true.
Proof.
  unfold ELLIPSIS_RE. cbn [rmatch]. rewrite orb_true_iff. split.
  - intros [H|H].
    + destruct (strip_prefix (lit "...") rest) as [r|] eqn:E; [|discriminate].
      apply strip_prefix_spec in E. exists r. split; [auto|].
      apply andb_true_iff in H. tauto.
    + destruct (strip_prefix [8230] rest) as [r|] eqn:E; [|discriminate].
      apply strip_prefix_spec in E. exists r. split; [auto|].
      apply andb_true_iff in H. tauto.
  - intros (r & [->| ->] & H).
    + left. rewrite strip_prefix_app, H. reflexivity.
    + right. unfold ELLIPSIS_GLYPH.
      rewrite (strip_prefix_app [8230] r), H. reflexivity.
Qed.

(** On a stripped text [$] can only be the very end, so the search finds
    exactly the texts that end in three dots or in the ellipsis glyph. *)
Lemma ellipsis_search_strip (text : str) :
  re_search isalnum ELLIPSIS_RE (strip text) = true <->
  ends_with (lit "...") (strip text) \/ ends_with ELLIPSIS_GLYPH (strip text).
Proof.
  unfold re_search. rewrite search_from_iff. split.
  - intros (pre & rest & E & H).
    apply ellipsis_rmatch in H as (r & Hr & He).
    apply at_end_cases in He as [->| ->].
    + rewrite app_nil_r in Hr.
      destruct Hr as [-> | ->]; [left|right]; exists pre; exact E.
    + exfalso.
      assert (exists p, strip text = p ++ [10]) as [p Hp].
      { destruct Hr as [-> | ->]; rewrite E.
        - exists (pre ++ lit "..."). rewrite <- app_assoc. reflexivity.
        - exists (pre ++ ELLIPSIS_GLYPH). rewrite <- app_assoc. reflexivity. }
      apply strip_last in Hp. discriminate Hp.
  - intros [[pre E]|[pre E]]; exists pre; eexists; (split; [exact E|]);
      apply ellipsis_rmatch; exists []; rewrite app_nil_r; auto.
Qed.

(** C7: when the stripped text ends in three dots or in the ellipsis glyph
    and the positive hits gathered so far hold one of "great", "awesome",
    "amazing", "perfect", "nice", the pass subtracts 0.4 from the score (and
    changes nothing else); in every other case it leaves the accumulator as
    it is.  So "That's great..." scores 0.4 less than "That's great". *)
Theorem ellipsis_dampening :
  (forall text st,
     (ends_with (lit "...") (strip text) \/
      ends_with ELLIPSIS_GLYPH (strip text)) ->
     (exists w, In w SARCASM_WORDS /\ In w (pos_hits st)) ->
     ellipsis_pass isalnum text st = sub_score 0.4 st) /\
  (forall text st,
     ~ ((ends_with (lit "...") (strip text) \/
         ends_with ELLIPSIS_GLYPH (strip text)) /\
        (exists w, In w SARCASM_WORDS /\ In w (pos_hits st))) ->
     ellipsis_pass isalnum text st = st) /\
  score_of (lit "That's great") = 1%float /\
  score_of (lit "That's great...") = (score_of (lit "That's great") - 0.4)%float /\
  (score_of (lit "That's great") - score_of (lit "That's great..."))%float
    = 0.4%float /\
  score_of (lit "That's great...") = 0.6%float.
Proof.
  split; [|split].
  - intros text st He (w & Hw & Hp). unfold ellipsis_pass.
    apply ellipsis_search_strip in He. rewrite He.
    replace (existsb _ SARCASM_WORDS) with true; [reflexivity|].
    symmetry. apply existsb_exists. exists w. split; [exact Hw|].
    apply in_set_In. exact Hp.
  - intros text st Hn. unfold ellipsis_pass.
    destruct (re_search isalnum ELLIPSIS_RE (strip text)) eqn:S;
      [|reflexivity].
    destruct (existsb _ SARCASM_WORDS) eqn:X; [|reflexivity].
    exfalso. apply Hn. split; [apply ellipsis_search_strip; exact S|].
    apply existsb_exists in X as (w & Hw & Hp). exists w.
    split; [exact Hw|]. apply in_set_In. exact Hp.
  - repeat split; vm_compute; reflexivity.
Qed.

End Ellipsis.

(** ** Polarity-flip idioms *)

Section Polarity.

Variable str_lower : str -> str.
Variable isalnum : Z -> bool.

Lemma not_bad_search (lowered : str) :
  occurs_as_word isalnum (lit "not bad") lowered ->
  re_search isalnum NOT_BAD_RE lowered = true.
Proof.
  intros (pre & post & -> & Hl & Hr). unfold re_search.
  apply search_from_iff. exists pre, (lit "not bad" ++ post).
  split; [reflexivity|].
  unfold NOT_BAD_RE. cbn in Hl, Hr |- *. rewrite Hl, Hr. reflexivity.
Qed.

Lemma not_good_search (lowered : str) :
  occurs_as_word isalnum (lit "not good") lowered \/
  occurs_as_word isalnum (lit "not so good") lowered ->
  re_search isalnum NOT_GOOD_RE lowered = true.
Proof.
  intros [(pre & post & -> & Hl & Hr)|(pre & post & -> & Hl & Hr)];
    unfold re_search; apply search_from_iff; exists pre; eexists;
    (split; [reflexivity|]);
    unfold NOT_GOOD_RE; cbn in Hl, Hr |- *; rewrite Hl, Hr; reflexivity.
Qed.

Lemma score_word_keeps_hits (original : str) (words : list str) (i : nat)
  (w x : str) (st : Ctx) :
  among_hits x st -> among_hits x (score_word original words i w st).
Proof.
  unfold among_hits, score_word. destruct (base_of _); [|tauto].
  cbv zeta. intros H. split_ifs;
    cbn [pos_hits neg_hits push_pos push_neg push_flipped push_intens
         push_dim add_score];
    rewrite ?in_app_iff; tauto.
Qed.

Lemma score_word_scores (original : str) (words : list str) (i : nat)
  (w : str) (st : Ctx) :
  lexicon_word w = true -> among_hits w (score_word original words i w st).
Proof.
  unfold lexicon_word, among_hits, score_word. intros Hl.
  rewrite base_of_reclassify.
  destruct (in_set w POS_WORDS);
    [|destruct (in_set w NEG_WORDS); [|discriminate Hl]];
    cbv zeta; split_ifs;
    cbn [pos_hits neg_hits push_pos push_neg push_flipped push_intens
         push_dim add_score];
    rewrite ?in_app_iff; simpl; tauto.
Qed.

Lemma word_loop_keeps_hits (original : str) (words rest : list str) (i : nat)
  (x : str) (st : Ctx) :
  among_hits x st -> among_hits x (word_loop original words i rest st).
Proof.
  revert i st. induction rest as [|w rest IH]; intros i st H; [exact H|].
  cbn [word_loop]. apply IH, score_word_keeps_hits, H.
Qed.

Lemma word_loop_scores (original : str) (words rest : list str) (i : nat)
  (w : str) (st : Ctx) :
  In w rest -> lexicon_word w = true ->
  among_hits w (word_loop original words i rest st).
Proof.
  revert i st. induction rest as [|y rest IH]; intros i st Hin Hl;
    [contradiction|].
  cbn [word_loop]. destruct Hin as [->|Hin].
  - apply word_loop_keeps_hits, score_word_scores, Hl.
  - apply IH; assumption.
Qed.

Lemma later_passes_keep_hits (text : str) (x : str) :
  among_hits x (ctx_after_words str_lower isalnum text) ->
  among_hits x (final_ctx str_lower isalnum text).
Proof.
  unfold final_ctx, ctx_after_ellipsis, among_hits. cbv zeta.
  set (st := ctx_after_words str_lower isalnum text). intros H.
  unfold not_good_pass, not_bad_pass.
  split_ifs;
    cbn [pos_hits neg_hits push_pos push_neg add_score sub_score];
    rewrite ?in_app_iff;
    rewrite ?(proj1 (ellipsis_pass_frame isalnum text _)),
            ?(proj1 (proj2 (ellipsis_pass_frame isalnum text _))),
            ?(proj1 (exclaim_pass_frame text _)),
            ?(proj1 (proj2 (exclaim_pass_frame text _))),
            ?emoji_loop_spec;
    cbn [pos_hits neg_hits]; tauto.
Qed.

(** C8: "not bad" between word boundaries adds 1.0 and the tag "not bad";
    "not good" or "not so good" subtracts 1.0 with the tag "not good".  Both
    are applied to the accumulator the earlier passes leave, word loop
    included, and every lexicon word of the stream, "bad" and "good" among
    them, has been scored there: it is among the hits of the final
    accumulator whether or not an idiom matched.  On "not bad" the word loop
    gives +1.0 for the negated "bad" and the idiom another +1.0. *)
Theorem polarity_idioms (text : str) :
  let lowered := str_lower text in
  let before := ctx_after_ellipsis str_lower isalnum text in
  let middle := not_bad_pass isalnum lowered before in
  let final := final_ctx str_lower isalnum text in
  (occurs_as_word isalnum (lit "not bad") lowered ->
   score middle = (score before + 1)%float /\
   pos_hits middle = pos_hits before ++ [lit "not bad"]) /\
  (occurs_as_word isalnum (lit "not good") lowered \/
   occurs_as_word isalnum (lit "not so good") lowered ->
   score final = (score middle - 1)%float /\
   neg_hits final = neg_hits middle ++ [lit "not good"]) /\
  final = not_good_pass isalnum lowered middle /\
  score final
    = (let s := if re_search isalnum NOT_BAD_RE lowered
                then (score before + 1)%float else score before in
       if re_search isalnum NOT_GOOD_RE lowered then (s - 1)%float else s) /\
  (forall w, In w (words_of str_lower lowered) -> lexicon_word w = true ->
             among_hits w final) /\
  lexicon_word (lit "bad") = true /\ lexicon_word (lit "good") = true /\
  score (ctx_after_ellipsis ascii_lower ascii_alnum (lit "not bad")) = 1%float /\
  score_of (lit "not bad") = 2%float /\
  score (ctx_after_ellipsis ascii_lower ascii_alnum (lit "not good"))
    = (-1)%float /\
  score_of (lit "not good") = (-2)%float.
Proof.
  cbv zeta. split; [|split; [|split; [|split; [|split]]]].
  - intros H. unfold not_bad_pass. rewrite (not_bad_search _ H).
    split; reflexivity.
  - intros H. unfold final_ctx. cbv zeta. unfold not_good_pass.
    rewrite (not_good_search _ H). split; reflexivity.
  - reflexivity.
  - unfold final_ctx. cbv zeta. unfold not_good_pass, not_bad_pass.
    destruct (re_search isalnum NOT_BAD_RE (str_lower text));
      destruct (re_search isalnum NOT_GOOD_RE (str_lower text)); reflexivity.
  - intros w Hin Hl. apply later_passes_keep_hits.
    unfold ctx_after_words, word_pass. cbv zeta.
    apply word_loop_scores; assumption.
  - repeat split; vm_compute; reflexivity.
Qed.

End Polarity.

(** ** The "shut up" idiom *)

Section ShutUp.

Variable isalnum : Z -> bool.

Lemma disbelief_rmatch (prev : option Z) (rest : str) :
  rmatch isalnum DISBELIEF_RE prev rest ktrue = true <->
  exists m b, In m MARKERS /\ rest = m ++ b /\
    word_boundary isalnum (last_char m None) (hd_error b) = true.
Proof.
  unfold DISBELIEF_RE. cbn [rmatch]. rewrite !orb_true_iff. split.
  - intros H.
    repeat (destruct H as [H|H]);
      match type of H with
      | match strip_prefix ?m rest with _ => _ end = true =>
          destruct (strip_prefix m rest) as [b|] eqn:E; [|discriminate];
          apply strip_prefix_spec in E; exists m, b;
          split; [unfold MARKERS; simpl; tauto|];
          split; [exact E|];
          apply andb_true_iff in H; destruct H as [H _]; exact H
      end.
  - intros (m & b & Hm & -> & Hb). unfold MARKERS in Hm. simpl in Hm.
    destruct Hm as [<-|[<-|[<-|[<-|[]]]]].
    + left. rewrite strip_prefix_app. cbn in Hb |- *. rewrite Hb. reflexivity.
    + right; left. rewrite strip_prefix_app. cbn in Hb |- *. rewrite Hb.
      reflexivity.
    + right; right; left. rewrite strip_prefix_app. cbn in Hb |- *.
      rewrite Hb. reflexivity.
    + right; right; right. rewrite strip_prefix_app. cbn in Hb |- *.
      rewrite Hb. reflexivity.
Qed.

Lemma disbelief_search (s : str) :
  re_search isalnum DISBELIEF_RE s = true <-> has_marker isalnum s.
Proof.
  unfold re_search, has_marker. rewrite search_from_iff. split.
  - intros (pre & rest & -> & H).
    apply disbelief_rmatch in H as (m & b & Hm & -> & Hb).
    exists m, pre, b. auto.
  - intros (m & a & b & Hm & -> & Hb). exists a, (m ++ b).
    split; [reflexivity|]. apply disbelief_rmatch. exists m, b. auto.
Qed.

Lemma has_event_iff (s : str) :
  contains_any s POS_EVENT_WORDS = true <-> has_event s.
Proof. apply contains_any_spec. Qed.

(** C4, as amended: when "shut up" occurs in the lowered text, the pass looks
    at what follows its first occurrence and does exactly one of three
    things, once: if the rest holds a marker ("did you really", "for real",
    "no way", "fr") ending at a word boundary and a positive-event word as a
    substring, it adds 1.5 and the tag of excited disbelief; if the rest
    holds no positive-event word as a substring, it subtracts 0.2 with the
    harsh tag; in the remaining case it changes nothing. *)
Theorem shut_up_idiom (lowered pre after : str) (st : Ctx) :
  lowered = pre ++ lit "shut up" ++ after ->
  (forall pre' after', lowered = pre' ++ lit "shut up" ++ after' ->
                       (List.length pre <= List.length pre')%nat) ->
  let st' := shut_up_pass isalnum lowered st in
  (has_marker isalnum after /\ has_event after ->
   st' = push_pos (lit "shut up! (excited disbelief)") (add_score 1.5 st)) /\
  (~ has_event after ->
   st' = push_neg (lit "shut up (harsh)") (sub_score 0.2 st)) /\
  (has_event after /\ ~ has_marker isalnum after -> st' = st) /\
  ((has_marker isalnum after /\ has_event after) \/ ~ has_event after \/
   (has_event after /\ ~ has_marker isalnum after)).
Proof.
  intros E Hfirst. cbv zeta. unfold shut_up_pass.
  assert (split_after (lit "shut up") lowered = Some after) as ->
    by (apply split_after_spec; exists pre; auto).
  pose proof (disbelief_search after) as Hm.
  pose proof (has_event_iff after) as He.
  destruct (re_search isalnum DISBELIEF_RE after);
    destruct (contains_any after POS_EVENT_WORDS); cbn [andb negb].
  - assert (has_marker isalnum after) as M by (apply Hm; reflexivity).
    assert (has_event after) as V by (apply He; reflexivity).
    split; [reflexivity|]. split; [intros N; contradiction|].
    split; [intros [_ N]; contradiction|]. left. split; assumption.
  - assert (~ has_event after) as V
      by (intros X; apply He in X; discriminate X).
    split; [intros [_ X]; contradiction|]. split; [reflexivity|].
    split; [intros [X _]; contradiction|]. right; left. assumption.
  - assert (~ has_marker isalnum after) as M
      by (intros X; apply Hm in X; discriminate X).
    assert (has_event after) as V by (apply He; reflexivity).
    split; [intros [X _]; contradiction|]. split; [intros N; contradiction|].
    split; [reflexivity|]. right; right. split; assumption.
  - assert (~ has_event after) as V
      by (intros X; apply He in X; discriminate X).
    split; [intros [_ X]; contradiction|]. split; [reflexivity|].
    split; [intros [X _]; contradiction|]. right; left. assumption.
Qed.

End ShutUp.

Lemma shut_up_idiom_witness :
  shut_up_pass ascii_alnum (lit "shut up! did you really buy me lunch?")
    init_ctx
  = push_pos (lit "shut up! (excited disbelief)") (add_score 1.5 init_ctx).
Proof.
  assert (Hfirst : forall pre' after',
    lit "shut up! did you really buy me lunch?"
      = pre' ++ lit "shut up" ++ after' ->
    (List.length (@nil Z) <= List.length pre')%nat) by (intros; simpl; lia).
  pose proof (shut_up_idiom ascii_alnum
                (lit "shut up! did you really buy me lunch?") []
                (lit "! did you really buy me lunch?") init_ctx
                eq_refl Hfirst) as (H & _).
  apply H. split.
  - exists (lit "did you really"), (lit "! "), (lit " buy me lunch?").
    split; [simpl; tauto|]. split; reflexivity.
  - exists (lit "lunch"), (lit "! did you really buy me "), (lit "?").
    split; [|reflexivity]. apply in_set_In. reflexivity.
Defined.

(** C4 as stated fails on "shut up i forgot": no word of the rest is a
    positive-event word, yet the pass does not subtract 0.2, because "got"
    is found inside "forgot"; the text scores 0.0. *)
Lemma shut_up_forgot_counterexample :
  split_after (lit "shut up") (lit "shut up i forgot")
    = Some (lit " i forgot") /\
  has_event_word (lit " i forgot") = false /\
  shut_up_pass ascii_alnum (lit "shut up i forgot") init_ctx = init_ctx /\
  shut_up_pass ascii_alnum (lit "shut up i forgot") init_ctx
    <> push_neg (lit "shut up (harsh)") (sub_score 0.2 init_ctx) /\
  score_of (lit "shut up i forgot") = 0%float.
Proof.
  repeat split; try (vm_compute; reflexivity).
  vm_compute. discriminate.
Qed.

(** ** The examples of the specification, run on the code *)

Example spec_examples :
  classify (lit "Shut up! Did you really buy me lunch?") false
    = Label positive /\
  score_of (lit "Shut up! Did you really buy me lunch?") = (1.5 + 0.2)%float /\
  classify (lit "This is great") false = Label positive /\
  classify (lit "This is terrible") false = Label negative /\
  classify (lit "This is not great") false = Label negative /\
  score_of (lit "This is very great") = 1.5%float /\
  classify [0x1F642; 0x1F60A] false = Label positive /\
  score_of [0x1F642; 0x1F60A] = 1.2%float /\
  classify [0x2639] false = Label negative /\
  score_of [0x2639] = (-0.6)%float.
Proof. repeat split; vm_compute; reflexivity. Qed.

(** The thresholds apply to the score before it is rounded for the record.
    On "very bad" followed by three positive emoji and one exclamation mark
    the score is 0.49999999999999994: the label is neutral, and the record
    reports the rounded score 0.5. *)
Example rounded_score_across_threshold :
  let text := lit "very bad" ++ [0x1F642; 0x1F642; 0x1F642] ++ lit "!" in
  score_of text = 0.49999999999999994%float /\
  (0.5 <=? score_of text)%float = false /\
  exists e, classify text true = WithEvidence neutral e /\
            dict_get "score" e = Some (PFloat 0.5).
Proof.
  cbv zeta. split; [vm_compute; reflexivity|].
  split; [vm_compute; reflexivity|].
  eexists. split; vm_compute; reflexivity.
Qed.

(** * Further properties of the code *)

(** ** Character classes *)

Lemma is_space_true_iff (c : Z) :
  is_space c = true <->
  9 <= c <= 13 \/ 28 <= c <= 32 \/ c = 133 \/ c = 160 \/ c = 5760 \/
  8192 <= c <= 8202 \/ c = 8232 \/ c = 8233 \/ c = 8239 \/ c = 8287 \/
  c = 12288.
Proof.
  unfold is_space.
  rewrite !orb_true_iff, !andb_true_iff, !Z.leb_le, !Z.eqb_eq. tauto.
Qed.

Lemma is_word_letter_true_iff (c : Z) :
  is_word_letter c = true <-> 65 <= c <= 90 \/ 97 <= c <= 122 \/ c = 39.
Proof.
  unfold is_word_letter.
  rewrite !orb_true_iff, !andb_true_iff, !Z.leb_le, !Z.eqb_eq. tauto.
Qed.

Lemma word_letter_not_space (c : Z) :
  is_word_letter c = true -> is_space c = false.
Proof.
  intros H. destruct (is_space c) eqn:E; [exfalso|reflexivity].
  apply is_space_true_iff in E. apply is_word_letter_true_iff in H. lia.
Qed.

Lemma is_word_letter_split (c : Z) :
  is_word_letter c = is_ascii_letter c || (c =? 39).
Proof. reflexivity. Qed.

(** ** The tokenizer *)

(** A greedy run takes every character of the class it can. *)
Lemma plus_greedy_run (cls : Z -> bool) (c : Z) (s' : str) :
  cls c = true ->
  exists run rest,
    plus_greedy cls (c :: s') Some = Some rest /\
    c :: s' = run ++ rest /\ run <> [] /\ forallb cls run = true /\
    match rest with d :: _ => cls d = false | [] => True end.
Proof.
  revert c. induction s' as [|d s' IH]; intros c Hc.
  - exists [c], []. simpl. rewrite Hc.
    split; [reflexivity|]. split; [reflexivity|].
    split; [discriminate|]. split; [reflexivity|exact I].
  - cbn [plus_greedy]. rewrite Hc. destruct (cls d) eqn:Hd.
    + destruct (IH d Hd) as (run & rest & Hp & E & _ & Hall & Hrest).
      cbn [plus_greedy] in Hp. rewrite Hd in Hp.
      exists (c :: run), rest. rewrite Hp.
      split; [reflexivity|]. split; [simpl; congruence|].
      split; [discriminate|]. split; [|exact Hrest].
      simpl. rewrite Hc, Hall. reflexivity.
    + exists [c], (d :: s'). simpl. rewrite Hc.
      split; [reflexivity|]. split; [reflexivity|].
      split; [discriminate|]. split; [reflexivity|exact Hd].
Qed.

Lemma match_at_space (c : Z) (s' : str) :
  is_space c = true -> match_at TOKEN_RE (c :: s') = None.
Proof.
  intros Hs. pose proof (proj1 (is_space_true_iff c) Hs) as Hc.
  assert (is_word_letter c = false) as W.
  { destruct (is_word_letter c) eqn:W; [|reflexivity].
    apply word_letter_not_space in W. congruence. }
  assert ((c =? 33) || (c =? 63) || (c =? 8230) = false) as P.
  { rewrite !orb_false_iff, !Z.eqb_neq. lia. }
  assert ((c =? 58) || (c =? 59) = false) as Q.
  { rewrite !orb_false_iff, !Z.eqb_neq. lia. }
  assert ((46 =? c) = false) as D by (apply Z.eqb_neq; lia).
  unfold match_at, TOKEN_RE.
  change (lit "...") with [46; 46; 46].
  cbn [tmatch plus_greedy strip_prefix].
  rewrite W, P, Q, D, Hs. reflexivity.
Qed.

Ltac token_props Hs W :=
  eexists; (split; [reflexivity|]); (split; [reflexivity|]);
  (split; [discriminate|]);
  (split; [cbn [forallb]; rewrite ?Hs; reflexivity|]);
  (split; [intros X; congruence|]);
  intros _; cbn [forallb]; rewrite ?W; reflexivity.

Ltac token_leaf c Hs W :=
  repeat match goal with
    | H : (_ =? _) = true |- _ => apply Z.eqb_eq in H; subst
    end;
  try lia;
  first
    [ solve [exists [c]; token_props Hs W]
    | solve [exists [c; 45; 41]; token_props Hs W]
    | solve [exists [c; 41]; token_props Hs W]
    | solve [exists [46; 46; 46]; token_props Hs W] ].

(** What one match of the token pattern takes at a character that is not
    whitespace: a non-empty stretch without whitespace, which is a maximal
    run of letters and apostrophes when it starts with one, and holds none
    otherwise. *)
Lemma match_at_token (c : Z) (s' : str) :
  is_space c = false ->
  exists tok rest,
    match_at TOKEN_RE (c :: s') = Some rest /\
    c :: s' = tok ++ rest /\ tok <> [] /\
    forallb (fun x => negb (is_space x)) tok = true /\
    (is_word_letter c = true ->
     forallb is_word_letter tok = true /\
     match rest with d :: _ => is_word_letter d = false | [] => True end) /\
    (is_word_letter c = false ->
     forallb (fun x => negb (is_word_letter x)) tok = true).
Proof.
  intros Hs. unfold match_at, TOKEN_RE.
  change (lit "...") with [46; 46; 46]. change (lit "-") with [45].
  change (lit ")") with [41].
  cbn [tmatch strip_prefix].
  destruct (is_word_letter c) eqn:W.
  - destruct (plus_greedy_run is_word_letter c s' W)
      as (run & rest & Hp & E & Hne & Hall & Hrest).
    rewrite Hp. exists run, rest.
    split; [reflexivity|]. split; [exact E|]. split; [exact Hne|].
    split; [|split; [auto|discriminate]].
    rewrite forallb_forall in *. intros x Hx.
    rewrite (word_letter_not_space x (Hall x Hx)). reflexivity.
  - assert (is_ascii_letter c = false) as A.
    { rewrite is_word_letter_split in W. apply orb_false_iff in W. tauto. }
    cbn [plus_greedy]. rewrite W, Hs, A. cbn [orb negb].
    destruct ((c =? 33) || (c =? 63) || (c =? 8230)) eqn:P;
      [token_leaf c Hs W|].
    destruct ((c =? 58) || (c =? 59)) eqn:Q.
    + assert ((46 =? c) = false) as D.
      { apply Z.eqb_neq. apply orb_true_iff in Q.
        rewrite !Z.eqb_eq in Q. lia. }
      rewrite D.
      destruct s' as [|y [|z s'']];
        try destruct (45 =? y) eqn:Y1; try destruct (41 =? y) eqn:Y2;
        try destruct (41 =? z) eqn:Z1;
        token_leaf c Hs W.
    + destruct (46 =? c) eqn:D; [|token_leaf c Hs W].
      apply Z.eqb_eq in D. subst c.
      destruct s' as [|y [|z s'']];
        try destruct (46 =? y) eqn:Y1; try destruct (46 =? z) eqn:Z1;
        token_leaf 46 Hs W.
Qed.

(** Any fuel that covers the text gives the same matches. *)
Lemma findall_from_fuel (r : tregex) (fuel1 fuel2 : nat) (s : str) :
  (List.length s <= fuel1)%nat -> (List.length s <= fuel2)%nat ->
  findall_from r fuel1 s = findall_from r fuel2 s.
Proof.
  revert fuel2 s. induction fuel1 as [|f1 IH]; intros [|f2] [|c s'] H1 H2;
    try reflexivity; try (simpl in *; lia).
  cbn [findall_from]. simpl in H1, H2.
  destruct (match_at r (c :: s')) as [rest|].
  - destruct (List.length rest <? List.length (c :: s'))%nat eqn:L.
    + apply Nat.ltb_lt in L. simpl in L.
      rewrite (IH f2 rest) by lia. reflexivity.
    + rewrite (IH f2 s') by lia. reflexivity.
  - apply IH; lia.
Qed.

Lemma tokenize_space (c : Z) (s' : str) :
  is_space c = true -> tokenize (c :: s') = tokenize s'.
Proof.
  intros Hs. unfold tokenize, findall. cbn [List.length findall_from].
  rewrite (match_at_space c s' Hs). reflexivity.
Qed.

Lemma tokenize_token (c : Z) (s' : str) :
  is_space c = false ->
  exists tok rest,
    tokenize (c :: s') = tok :: tokenize rest /\
    c :: s' = tok ++ rest /\ tok <> [] /\
    forallb (fun x => negb (is_space x)) tok = true /\
    (is_word_letter c = true ->
     forallb is_word_letter tok = true /\
     match rest with d :: _ => is_word_letter d = false | [] => True end) /\
    (is_word_letter c = false ->
     forallb (fun x => negb (is_word_letter x)) tok = true).
Proof.
  intros Hs.
  destruct (match_at_token c s' Hs) as (tok & rest & Hm & E & Hne & Hrest).
  exists tok, rest. split; [|auto].
  assert (List.length (c :: s') = List.length tok + List.length rest)%nat as L
    by (rewrite E; apply length_app).
  assert (0 < List.length tok)%nat as Lt
    by (destruct tok; [congruence|simpl; lia]).
  unfold tokenize, findall. cbn [findall_from List.length] in *.
  rewrite Hm.
  replace (List.length rest <? S (List.length s'))%nat with true
    by (symmetry; apply Nat.ltb_lt; lia).
  f_equal.
  - replace (S (List.length s') - List.length rest)%nat
      with (List.length tok) by lia.
    rewrite E. rewrite firstn_app, Nat.sub_diag, firstn_all. simpl.
    apply app_nil_r.
  - apply findall_from_fuel; lia.
Qed.

(** Induction along the tokenizer: over the empty text, a whitespace
    character, or a token followed by the rest. *)
Lemma tokenize_induction (P : str -> list str -> Prop) :
  P [] [] ->
  (forall c s' toks, is_space c = true -> P s' toks -> P (c :: s') toks) ->
  (forall c tok rest toks,
     tok <> [] -> hd_error tok = Some c -> is_space c = false ->
     forallb (fun x => negb (is_space x)) tok = true ->
     (is_word_letter c = true ->
      forallb is_word_letter tok = true /\
      match rest with d :: _ => is_word_letter d = false | [] => True end) ->
     (is_word_letter c = false ->
      forallb (fun x => negb (is_word_letter x)) tok = true) ->
     P rest toks -> P (tok ++ rest) (tok :: toks)) ->
  forall s, P s (tokenize s).
Proof.
  intros Hnil Hspace Htok s.
  remember (List.length s) as n eqn:Hn.
  revert s Hn. induction n as [n IH] using lt_wf_ind. intros s Hn.
  destruct s as [|c s']; [exact Hnil|].
  destruct (is_space c) eqn:Hs.
  - rewrite (tokenize_space c s' Hs). apply Hspace; [exact Hs|].
    apply (IH (List.length s')); [simpl in Hn; lia|reflexivity].
  - destruct (tokenize_token c s' Hs)
      as (tok & rest & Ht & E & Hne & Hsp & Hw & Hnw).
    rewrite Ht, E.
    assert (hd_error tok = Some c) as Hh.
    { destruct tok as [|x tok]; [congruence|].
      simpl in E. injection E as -> _. reflexivity. }
    apply (Htok c); try assumption.
    apply (IH (List.length rest)); [|reflexivity].
    subst n. rewrite E, length_app.
    destruct tok; [congruence|simpl; lia].
Qed.

Lemma filter_all_true {A} (f : A -> bool) (l : list A) :
  forallb f l = true -> filter f l = l.
Proof.
  induction l as [|x l IH]; simpl; [reflexivity|].
  destruct (f x); simpl; [|discriminate]. intros H. rewrite IH; auto.
Qed.

(** X1: the tokens of a text, put end to end, are the text without its
    whitespace: the tokenizer drops whitespace and nothing else, keeps the
    order, and never yields an empty token or one that holds whitespace. *)
Theorem tokenize_covers_text (text : str) :
  List.concat (tokenize text) = filter (fun c => negb (is_space c)) text /\
  Forall (fun t => t <> [] /\
                   forallb (fun c => negb (is_space c)) t = true)
         (tokenize text).
Proof.
  apply (tokenize_induction
    (fun s toks =>
       List.concat toks = filter (fun c => negb (is_space c)) s /\
       Forall (fun t => t <> [] /\
                        forallb (fun c => negb (is_space c)) t = true) toks)).
  - split; [reflexivity|constructor].
  - intros c s' toks Hs [IH1 IH2]. split; [|exact IH2].
    simpl. rewrite Hs. exact IH1.
  - intros c tok rest toks Hne _ _ Hsp _ _ [IH1 IH2]. split.
    + simpl. rewrite filter_app, IH1, (filter_all_true _ tok Hsp).
      reflexivity.
    + constructor; [split; assumption|exact IH2].
Qed.

(** X2: a text yields no token exactly when it is empty or all whitespace. *)
Theorem tokenize_empty_iff_blank (text : str) :
  tokenize text = [] <-> forallb is_space text = true.
Proof.
  apply (tokenize_induction
    (fun s toks => toks = [] <-> forallb is_space s = true)).
  - simpl. tauto.
  - intros c s' toks Hs IH. simpl. rewrite Hs. exact IH.
  - intros c tok rest toks Hne Hh Hs _ _ _ _.
    destruct tok as [|x tok]; [congruence|]. injection Hh as ->.
    simpl. rewrite Hs. simpl. split; discriminate.
Qed.

Lemma findall_words_run (run rest cur : str) :
  forallb is_word_letter run = true ->
  findall_words (run ++ rest) cur = findall_words rest (cur ++ run).
Proof.
  revert cur. induction run as [|c run IH]; intros cur H.
  - rewrite app_nil_r. reflexivity.
  - simpl in H. apply andb_true_iff in H as [Hc H].
    cbn [app findall_words]. rewrite Hc, (IH _ H), <- app_assoc.
    reflexivity.
Qed.

Lemma findall_words_flush (rest cur : str) :
  cur <> [] ->
  match rest with d :: _ => is_word_letter d = false | [] => True end ->
  findall_words rest cur = cur :: findall_words rest [].
Proof.
  intros Hc Hr. destruct cur as [|x cur]; [congruence|].
  destruct rest as [|d rest]; [reflexivity|].
  cbn [findall_words]. rewrite Hr. reflexivity.
Qed.

Lemma findall_words_skip (tok rest : str) :
  forallb (fun x => negb (is_word_letter x)) tok = true ->
  findall_words (tok ++ rest) [] = findall_words rest [].
Proof.
  induction tok as [|c tok IH]; intros H; [reflexivity|].
  simpl in H. apply andb_true_iff in H as [Hc H].
  apply negb_true_iff in Hc.
  cbn [app findall_words]. rewrite Hc. simpl. apply IH, H.
Qed.

(** X3: the tokens that start with a letter or an apostrophe are, in order,
    the words [re.findall(r"[A-Za-z']+", text)] gives: the token stream and
    the word stream of a text run in parallel. *)
Theorem tokenize_word_tokens (text : str) :
  filter is_word_token (tokenize text) = findall_words text [].
Proof.
  apply (tokenize_induction
    (fun s toks => filter is_word_token toks = findall_words s [])).
  - reflexivity.
  - intros c s' toks Hs IH. cbn [findall_words].
    destruct (is_word_letter c) eqn:W.
    + apply word_letter_not_space in W. congruence.
    + simpl. exact IH.
  - intros c tok rest toks Hne Hh Hs _ Hw Hnw IH.
    cbn [filter]. unfold is_word_token at 1.
    destruct tok as [|x tok]; [congruence|]. injection Hh as ->.
    destruct (is_word_letter c) eqn:W.
    + destruct (Hw eq_refl) as [Hall Hrest].
      rewrite (findall_words_run _ rest [] Hall). simpl app.
      rewrite (findall_words_flush rest (c :: tok)) by (auto; discriminate).
      rewrite IH. reflexivity.
    + rewrite (findall_words_skip _ rest (Hnw eq_refl)). exact IH.
Qed.

(** ** The word stream *)

Lemma findall_words_acc (s cur : str) :
  forallb is_word_letter cur = true ->
  List.concat (findall_words s cur) = cur ++ filter is_word_letter s /\
  Forall (fun w => w <> [] /\ forallb is_word_letter w = true)
         (findall_words s cur).
Proof.
  revert cur. induction s as [|c s IH]; intros cur Hcur.
  - cbn [findall_words filter]. rewrite app_nil_r.
    destruct cur as [|x cur]; simpl.
    + split; [reflexivity|constructor].
    + rewrite app_nil_r. split; [reflexivity|].
      constructor; [|constructor]. split; [discriminate|exact Hcur].
  - cbn [findall_words filter]. destruct (is_word_letter c) eqn:W.
    + destruct (IH (cur ++ [c])) as [H1 H2].
      { rewrite forallb_app, Hcur. simpl. rewrite W. reflexivity. }
      split; [|exact H2]. rewrite H1, <- app_assoc. reflexivity.
    + destruct (IH []) as [H1 H2]; [reflexivity|].
      destruct cur as [|x cur]; simpl.
      * split; [exact H1|exact H2].
      * rewrite H1. simpl. split; [reflexivity|].
        constructor; [|exact H2]. split; [discriminate|exact Hcur].
Qed.

(** X4: the words found in a text are never empty and hold nothing but
    ASCII letters and apostrophes; put end to end they are exactly the
    letters and apostrophes of the text, in order.  Digits, punctuation and
    every non-ASCII character only separate words. *)
Theorem findall_words_letters (text : str) :
  List.concat (findall_words text []) = filter is_word_letter text /\
  Forall (fun w => w <> [] /\ forallb is_word_letter w = true)
         (findall_words text []).
Proof. apply (findall_words_acc text []). reflexivity. Qed.

(** ** [is_emoji] and the emoji loop *)

Lemma emoji_free_fold (text : str) (s : float) :
  existsb is_emoji_char text = false ->
  fold_left emoji_delta text s = s /\ emoji_chars text = [].
Proof.
  unfold emoji_chars. revert s.
  induction text as [|c text IH]; intros s H; [split; reflexivity|].
  cbn [existsb] in H. apply orb_false_iff in H as [Hc H].
  cbn [fold_left filter]. rewrite Hc.
  unfold is_emoji_char in Hc. apply orb_false_iff in Hc as [Hp Hn].
  unfold emoji_delta at 2. rewrite Hp, Hn. apply IH, H.
Qed.

(** X5: [is_emoji] tells whether the emoji loop does anything: the loop
    leaves every accumulator as it is exactly on the texts for which
    [is_emoji] is false. *)
Theorem is_emoji_false_iff_pass_idle (text : str) :
  is_emoji text = false <-> forall st, emoji_pass text st = st.
Proof.
  change (is_emoji text) with (existsb is_emoji_char text). split.
  - intros H st. rewrite emoji_loop_spec.
    destruct (emoji_free_fold text (score st) H) as [-> ->].
    rewrite app_nil_r. destruct st; reflexivity.
  - intros H. specialize (H init_ctx). rewrite emoji_loop_spec in H.
    apply (f_equal emo_hits) in H. simpl in H. unfold emoji_chars in H.
    apply map_eq_nil in H.
    destruct (existsb is_emoji_char text) eqn:E; [|reflexivity].
    apply existsb_exists in E as (c & Hin & Hc).
    assert (In c (filter is_emoji_char text)) as F
      by (apply filter_In; auto).
    rewrite H in F. contradiction.
Qed.

(** ** Exclamation marks *)

(** X6: the boost for exclamation marks is capped: every text with three
    marks or more gets the boost of exactly three, which is the binary64
    product 3 * 0.2 = 0.6000000000000001 (just above 0.6), and nothing but
    the score changes. *)
Theorem exclaim_boost_capped (text : str) (st : Ctx) :
  (3 <= count_char 33 text)%nat ->
  exclaim_pass text st = add_score 0.6000000000000001 st /\
  (0.6 <? 0.6000000000000001)%float = true.
Proof.
  intros H. unfold exclaim_pass. cbv zeta.
  replace (0 <? count_char 33 text)%nat with true
    by (symmetry; apply Nat.ltb_lt; lia).
  rewrite Nat.min_r by exact H. split; reflexivity.
Qed.

Lemma exclaim_boost_capped_witness :
  (3 <= count_char 33 (lit "wow!!!!!"))%nat /\
  exclaim_pass (lit "wow!!!!!") init_ctx
    = add_score 0.6000000000000001 init_ctx.
Proof.
  split; [vm_compute; lia|].
  apply (exclaim_boost_capped (lit "wow!!!!!") init_ctx).
  vm_compute. lia.
Defined.

(** ** [contains_any] *)

(** X7: [contains_any] looks for the vocabulary as substrings, so whatever
    it finds in a text it finds in every text that contains that text, with
    anything before and after (also letters that make a longer word), and in
    every larger vocabulary. *)
Theorem contains_any_monotone (s before after : str) (vocab more : list str) :
  contains_any s vocab = true ->
  contains_any (before ++ s ++ after) (vocab ++ more) = true.
Proof.
  rewrite !contains_any_spec. intros (w & a & b & Hw & ->).
  exists w, (before ++ a), (b ++ after).
  split; [apply in_or_app; auto|].
  rewrite <- !app_assoc. reflexivity.
Qed.

Lemma contains_any_monotone_witness :
  contains_any (lit "got") POS_EVENT_WORDS = true /\
  contains_any (lit "i for" ++ lit "got" ++ lit "ten") (POS_EVENT_WORDS ++ [])
    = true.
Proof.
  split; [reflexivity|].
  apply (contains_any_monotone (lit "got") (lit "i for") (lit "ten")
           POS_EVENT_WORDS []).
  reflexivity.
Defined.

(** ** Reported collections *)

Lemma strictly_sorted_unique (l1 l2 : list str) :
  StronglySorted str_lt l1 -> StronglySorted str_lt l2 ->
  (forall x, In x l1 <-> In x l2) -> l1 = l2.
Proof.
  intros S1. revert l2. induction S1 as [|a l1 S1 IH Ha]; intros l2 S2 H.
  - destruct l2 as [|b l2]; [reflexivity|].
    exfalso. apply (proj2 (H b)). left. reflexivity.
  - destruct S2 as [|b l2 S2 Hb].
    + exfalso. apply (proj1 (H a)). left. reflexivity.
    + rewrite Forall_forall in Ha, Hb.
      assert (a = b) as ->.
      { destruct (proj1 (H a) (or_introl eq_refl)) as [E|Ia]; [auto|].
        destruct (proj2 (H b) (or_introl eq_refl)) as [E|Ib]; [auto|].
        exfalso. pose proof (str_ltb_trans _ _ _ (Ha b Ib) (Hb a Ia)) as T.
        rewrite str_ltb_irrefl in T. discriminate. }
      f_equal. apply IH; [exact S2|]. intros x. split; intros Hx.
      * destruct (proj1 (H x) (or_intror Hx)) as [E|I2]; [|exact I2].
        exfalso. subst x. pose proof (Ha b Hx) as T. unfold str_lt in T.
        rewrite str_ltb_irrefl in T. discriminate.
      * destruct (proj2 (H x) (or_intror Hx)) as [E|I1]; [|exact I1].
        exfalso. subst x. pose proof (Hb b Hx) as T. unfold str_lt in T.
        rewrite str_ltb_irrefl in T. discriminate.
Qed.

(** X10: a reported collection depends only on which strings were
    recorded, not on their order or on how often each was recorded: two
    accumulated lists with the same members are reported as the same list,
    which has exactly those members. *)
Theorem reported_hits_order_independent (l l' : list str) :
  (forall x, In x l <-> In x l') ->
  sorted_set l = sorted_set l' /\
  (forall x, In x (sorted_set l) <-> In x l).
Proof.
  intros H. split; [|intros x; apply sorted_set_In].
  apply strictly_sorted_unique; try apply sorted_set_sorted.
  intros x. rewrite !sorted_set_In. apply H.
Qed.

Lemma reported_hits_order_independent_witness :
  (forall x, In x (List.map lit ["nice"; "great"; "nice"]%string)
             <-> In x (List.map lit ["great"; "nice"]%string)) /\
  sorted_set (List.map lit ["nice"; "great"; "nice"]%string)
    = sorted_set (List.map lit ["great"; "nice"]%string).
Proof.
  assert (H : forall x, In x (List.map lit ["nice"; "great"; "nice"]%string)
                        <-> In x (List.map lit ["great"; "nice"]%string))
    by (intros x; simpl; tauto).
  split; [exact H|].
  apply (reported_hits_order_independent _ _ H).
Defined.

(** ** The label as a function of the score *)

Lemma SFcompare_defined (x y z : spec_float) (c d : comparison) :
  SFcompare x y = Some c -> SFcompare y z = Some d ->
  exists e, SFcompare x z = Some e.
Proof.
  destruct x as [sx|sx| |sx mx ex], y as [sy|sy| |sy my ey],
    z as [sz|sz| |sz mz ez]; simpl; intros; try discriminate; eauto.
Qed.

Lemma float_leb_trans (a b c : float) :
  (a <=? b)%float = true -> (b <=? c)%float = true -> (a <=? c)%float = true.
Proof.
  intros Hab Hbc. destruct (a <=? c)%float eqn:Hac; [reflexivity|].
  exfalso. apply (float_leb_trans_lt a b c Hab Hbc).
  rewrite leb_spec in Hab, Hbc, Hac. rewrite ltb_spec.
  unfold SFleb, SFltb in *.
  destruct (SFcompare (Prim2SF a) (Prim2SF b)) as [x|] eqn:E1;
    [|discriminate].
  destruct (SFcompare (Prim2SF b) (Prim2SF c)) as [y|] eqn:E2;
    [|discriminate].
  destruct (SFcompare_defined _ _ _ _ _ E1 E2) as [e E3].
  rewrite E3 in Hac. rewrite (SFcompare_antisym _ _ _ E3).
  destruct e; simpl; congruence.
Qed.

(** X11: the label is monotone in the score: when the score rises a
    positive label stays positive, and when it falls a negative label stays
    negative. *)
Theorem label_monotone (s1 s2 : float) :
  (s1 <=? s2)%float = true ->
  (label_of_score s1 = positive -> label_of_score s2 = positive) /\
  (label_of_score s2 = negative -> label_of_score s1 = negative).
Proof.
  intros H. rewrite !label_of_score_positive, !label_of_score_negative.
  split; intros G.
  - exact (float_leb_trans _ _ _ G H).
  - exact (float_leb_trans _ _ _ H G).
Qed.

Lemma label_monotone_witness :
  (0.6 <=? 1.7)%float = true /\
  (label_of_score 0.6 = positive -> label_of_score 1.7 = positive).
Proof.
  split; [reflexivity|].
  apply (label_monotone 0.6 1.7). reflexivity.
Defined.

(** ** Invariants of the evidence lists *)

Lemma tag_step_refl (st : Ctx) : tag_step st st.
Proof. unfold tag_step. auto 10. Qed.

Lemma tag_step_inv (words : list str) (st st' : Ctx) :
  tag_step st st' -> evidence_inv words st -> evidence_inv words st'.
Proof.
  intros (Hi & Hd & Hf & Hup & Hdown) (I1 & I2 & I3 & I4).
  unfold evidence_inv. rewrite Hi, Hd, Hf. repeat split.
  - intros x Hx. destruct (Hdown x Hx) as [H|H]; [auto|right; exact H].
  - auto.
  - auto.
  - intros t Ht. destruct (I4 t Ht) as (w & -> & Hw). eauto.
Qed.

Ltac tag_step_solve :=
  unfold tag_step, among_hits;
  cbn [pos_hits neg_hits flipped_hits intens_hits dim_hits
       push_pos push_neg add_score sub_score];
  repeat split; try reflexivity; intros x; rewrite ?in_app_iff;
  unfold IDIOM_TAGS; simpl; tauto.

Section Invariants.

Variable str_lower : str -> str.
Variable isalnum : Z -> bool.

Lemma shut_up_pass_tag_step (lowered : str) (st : Ctx) :
  tag_step st (shut_up_pass isalnum lowered st).
Proof.
  unfold shut_up_pass. split_ifs; try apply tag_step_refl; tag_step_solve.
Qed.

Lemma not_bad_pass_tag_step (lowered : str) (st : Ctx) :
  tag_step st (not_bad_pass isalnum lowered st).
Proof.
  unfold not_bad_pass. split_ifs; try apply tag_step_refl; tag_step_solve.
Qed.

Lemma not_good_pass_tag_step (lowered : str) (st : Ctx) :
  tag_step st (not_good_pass isalnum lowered st).
Proof.
  unfold not_good_pass. split_ifs; try apply tag_step_refl; tag_step_solve.
Qed.

Lemma middle_passes_tag_step (text : str) (st : Ctx) :
  tag_step st
    (ellipsis_pass isalnum text (exclaim_pass text (emoji_pass text st))).
Proof.
  unfold ellipsis_pass, exclaim_pass. cbv zeta. rewrite emoji_loop_spec.
  split_ifs; tag_step_solve.
Qed.

(** One iteration of the word loop only appends, and what it appends is the
    word itself (or its negation tag). *)
Lemma score_word_shape (original : str) (words : list str) (i : nat)
  (w : str) (st : Ctx) :
  let st' := score_word original words i w st in
  (lexicon_word w = false -> st' = st) /\
  (lexicon_word w = true ->
   (pos_hits st' = pos_hits st ++ [w] /\ neg_hits st' = neg_hits st \/
    pos_hits st' = pos_hits st /\ neg_hits st' = neg_hits st ++ [w]) /\
   (flipped_hits st' = flipped_hits st \/
    flipped_hits st' = flipped_hits st ++ [lit "negated:" ++ w]) /\
   (intens_hits st' = intens_hits st \/
    intens_hits st' = intens_hits st ++ [w]) /\
   (dim_hits st' = dim_hits st \/ dim_hits st' = dim_hits st ++ [w])).
Proof.
  cbv zeta. unfold lexicon_word, score_word. rewrite base_of_reclassify.
  destruct (in_set w POS_WORDS); [|destruct (in_set w NEG_WORDS)];
    cbn [orb]; (split; [intros X; try discriminate X; reflexivity|]);
    intros X; try discriminate X; cbv zeta.
  all: destruct (existsb (fun t => in_set t NEGATORS) _);
    destruct (existsb (fun t => in_set t INTENSIFIERS) _);
    destruct (existsb (fun t => in_set t DIMINISHERS) _);
    match goal with
    | |- context [if ?c then push_pos _ _ else _] =>
        let b := eval vm_compute in c in change c with b
    end; cbv iota;
    cbn [pos_hits neg_hits flipped_hits intens_hits dim_hits
         push_pos push_neg push_flipped push_intens push_dim add_score];
    repeat split; auto.
Qed.

Lemma score_word_inv (original : str) (words ws : list str) (i : nat)
  (w : str) (st : Ctx) :
  In w words -> evidence_inv words st ->
  evidence_inv words (score_word original ws i w st).
Proof.
  intros Hw (I1 & I2 & I3 & I4).
  destruct (score_word_shape original ws i w st) as [Hno Hyes].
  cbv zeta in Hno, Hyes.
  destruct (lexicon_word w) eqn:L;
    [|rewrite (Hno eq_refl); unfold evidence_inv; auto].
  destruct (Hyes eq_refl) as (Hh & Hf & Hi & Hd).
  set (st' := score_word original ws i w st) in *.
  assert (Hup : forall x, among_hits x st -> among_hits x st').
  { unfold among_hits. intros x Hx.
    destruct Hh as [[-> ->]|[-> ->]]; rewrite ?in_app_iff; tauto. }
  assert (Hnew : among_hits w st').
  { unfold among_hits.
    destruct Hh as [[-> ->]|[-> ->]]; rewrite ?in_app_iff; simpl; tauto. }
  assert (Hdown : forall x, among_hits x st' -> among_hits x st \/ x = w).
  { unfold among_hits. intros x.
    destruct Hh as [[-> ->]|[-> ->]]; rewrite ?in_app_iff; simpl;
      intuition auto. }
  unfold evidence_inv. repeat split.
  - intros x Hx. destruct (Hdown x Hx) as [H| ->]; [auto|].
    left. split; assumption.
  - intros x. destruct Hi as [-> | ->]; [auto|].
    rewrite in_app_iff. simpl. intros [H|[<-|[]]]; auto.
  - intros x. destruct Hd as [-> | ->]; [auto|].
    rewrite in_app_iff. simpl. intros [H|[<-|[]]]; auto.
  - intros t. destruct Hf as [-> | ->].
    + intros Ht. destruct (I4 t Ht) as (x & -> & Hx).
      exists x. split; [reflexivity|apply Hup; exact Hx].
    + rewrite in_app_iff. simpl. intros [Ht|[<-|[]]].
      * destruct (I4 t Ht) as (x & -> & Hx).
        exists x. split; [reflexivity|apply Hup; exact Hx].
      * exists w. split; [reflexivity|exact Hnew].
Qed.

Lemma word_loop_inv (original : str) (words ws rest : list str) (i : nat)
  (st : Ctx) :
  incl rest words -> evidence_inv words st ->
  evidence_inv words (word_loop original ws i rest st).
Proof.
  revert i st. induction rest as [|w rest IH]; intros i st Hin Hst;
    [exact Hst|].
  cbn [word_loop]. apply IH.
  - intros x Hx. apply Hin. right. exact Hx.
  - apply score_word_inv; [apply Hin; left; reflexivity|exact Hst].
Qed.

Lemma init_ctx_inv (words : list str) : evidence_inv words init_ctx.
Proof.
  unfold evidence_inv, among_hits, init_ctx. simpl.
  repeat split; intros; tauto.
Qed.

Lemma final_ctx_inv (text : str) :
  evidence_inv (words_of str_lower (str_lower text))
    (final_ctx str_lower isalnum text).
Proof.
  unfold final_ctx, ctx_after_ellipsis, ctx_after_words, word_pass.
  cbv zeta.
  eapply tag_step_inv; [apply not_good_pass_tag_step|].
  eapply tag_step_inv; [apply not_bad_pass_tag_step|].
  eapply tag_step_inv; [apply middle_passes_tag_step|].
  apply word_loop_inv; [apply incl_refl|].
  eapply tag_step_inv; [apply shut_up_pass_tag_step|].
  apply init_ctx_inv.
Qed.

(** X8: in the reported record every intensified word and every diminished
    word is also reported among the positive or the negative hits, and every
    entry of "flipped_by_negation" is "negated:" followed by such a hit. *)
Theorem reported_modifiers_are_hits (text : str) :
  let st := final_ctx str_lower isalnum text in
  let reported_hit w :=
    In w (sorted_set (pos_hits st)) \/ In w (sorted_set (neg_hits st)) in
  (forall w, In w (sorted_set (intens_hits st)) -> reported_hit w) /\
  (forall w, In w (sorted_set (dim_hits st)) -> reported_hit w) /\
  (forall t, In t (sorted_set (flipped_hits st)) ->
             exists w, t = lit "negated:" ++ w /\ reported_hit w).
Proof.
  cbv zeta. destruct (final_ctx_inv text) as (_ & I2 & I3 & I4).
  unfold among_hits in *.
  repeat split; intros x; rewrite !sorted_set_In; auto.
  intros Ht. destruct (I4 x Ht) as (w & -> & Hw). exists w.
  rewrite !sorted_set_In. auto.
Qed.

(** X9: nothing is reported as a hit but lexicon words that occur in the
    word stream of the text and the four idiom tags. *)
Theorem reported_hits_are_lexicon_words_or_tags (text : str) (x : str) :
  let st := final_ctx str_lower isalnum text in
  In x (sorted_set (pos_hits st)) \/ In x (sorted_set (neg_hits st)) ->
  (In x (words_of str_lower (str_lower text)) /\
   (in_set x POS_WORDS = true \/ in_set x NEG_WORDS = true)) \/
  In x IDIOM_TAGS.
Proof.
  cbv zeta. rewrite !sorted_set_In. intros H.
  destruct (final_ctx_inv text) as (I1 & _).
  destruct (I1 x H) as [[Hin Hl]|Ht]; [left|right; exact Ht].
  split; [exact Hin|]. unfold lexicon_word in Hl.
  apply orb_true_iff in Hl. exact Hl.
Qed.

End Invariants.

Lemma reported_hits_are_lexicon_words_or_tags_witness :
  In (lit "great")
     (sorted_set (neg_hits (final_ctx ascii_lower ascii_alnum
                              (lit "This is not great")))) /\
  ((In (lit "great") (words_of ascii_lower (ascii_lower (lit "This is not great")))
    /\ (in_set (lit "great") POS_WORDS = true \/
        in_set (lit "great") NEG_WORDS = true)) \/
   In (lit "great") IDIOM_TAGS).
Proof.
  assert (H : In (lit "great")
                (sorted_set (neg_hits (final_ctx ascii_lower ascii_alnum
                                         (lit "This is not great")))))
    by (vm_compute; tauto).
  split; [exact H|].
  apply (reported_hits_are_lexicon_words_or_tags ascii_lower ascii_alnum
           (lit "This is not great") (lit "great")).
  right. exact H.
Defined.

(** ** The guard of the "shut up" idiom *)

(** X12: the idiom is guarded by the test that "shut up" occurs: without an
    occurrence the pass leaves the accumulator as it is, and with one the
    split always has the second part the code indexes. *)
Theorem shut_up_guard (isalnum : Z -> bool) (lowered : str) (st : Ctx) :
  (contains (lit "shut up") lowered = false ->
   shut_up_pass isalnum lowered st = st) /\
  (contains (lit "shut up") lowered = true ->
   exists after, split_after (lit "shut up") lowered = Some after).
Proof.
  split; intros H.
  - apply split_after_none in H. unfold shut_up_pass. rewrite H. reflexivity.
  - destruct (split_after (lit "shut up") lowered) as [after|] eqn:E;
      [eauto|]. apply split_after_none in E. congruence.
Qed.

(** ** The lexicons *)

(** X13: no word is in both the positive and the negative lexicon, and no
    character is in both emoji sets, so the order of the two membership
    tests in the loops decides nothing. *)
Theorem lexicons_disjoint :
  (forall w, in_set w POS_WORDS && in_set w NEG_WORDS = false) /\
  (forall c, in_set [c] POS_EMOJI && in_set [c] NEG_EMOJI = false).
Proof.
  split.
  - intros w. destruct (in_set w POS_WORDS) eqn:P; [|reflexivity].
    apply in_set_In in P.
    assert (forallb (fun p => negb (in_set p NEG_WORDS)) POS_WORDS = true)
      as F by (vm_compute; reflexivity).
    rewrite forallb_forall in F. apply F in P.
    apply negb_true_iff in P. exact P.
  - intros c. destruct (in_set [c] POS_EMOJI) eqn:P; [|reflexivity].
    apply in_set_In in P.
    assert (forallb (fun p => negb (in_set p NEG_EMOJI)) POS_EMOJI = true)
      as F by (vm_compute; reflexivity).
    rewrite forallb_forall in F. apply F in P.
    apply negb_true_iff in P. exact P.
Qed.

(** ** Texts without any cue *)

Section CueFree.

Variable str_lower : str -> str.
Variable isalnum : Z -> bool.

Lemma polarity_idioms_need_not (s : str) :
  contains (lit "not") s = false ->
  re_search isalnum NOT_BAD_RE s = false /\
  re_search isalnum NOT_GOOD_RE s = false.
Proof.
  intros H. split.
  - destruct (re_search isalnum NOT_BAD_RE s) eqn:E; [|reflexivity].
    unfold re_search in E.
    apply search_from_iff in E as (pre & rest & -> & M).
    unfold NOT_BAD_RE in M. cbn [rmatch] in M.
    apply andb_true_iff in M as [_ M].
    destruct (strip_prefix (lit "not") rest) as [r|] eqn:P; [|discriminate].
    apply strip_prefix_spec in P. subst rest.
    assert (contains (lit "not") (pre ++ lit "not" ++ r) = true) as C
      by (apply contains_spec; eauto).
    congruence.
  - destruct (re_search isalnum NOT_GOOD_RE s) eqn:E; [|reflexivity].
    unfold re_search in E.
    apply search_from_iff in E as (pre & rest & -> & M).
    unfold NOT_GOOD_RE in M. cbn [rmatch] in M.
    apply andb_true_iff in M as [_ M].
    destruct (strip_prefix (lit "not") rest) as [r|] eqn:P; [|discriminate].
    apply strip_prefix_spec in P. subst rest.
    assert (contains (lit "not") (pre ++ lit "not" ++ r) = true) as C
      by (apply contains_spec; eauto).
    congruence.
Qed.

Lemma word_loop_no_lexicon (original : str) (words rest : list str) (i : nat)
  (st : Ctx) :
  (forall w, In w rest -> lexicon_word w = false) ->
  word_loop original words i rest st = st.
Proof.
  revert i st. induction rest as [|w rest IH]; intros i st H; [reflexivity|].
  cbn [word_loop].
  rewrite (proj1 (score_word_shape original words i w st))
    by (apply H; left; reflexivity).
  apply IH. intros x Hx. apply H. right. exact Hx.
Qed.

(** X14: a text that is not blank and holds no cue (no lexicon word in its
    word stream, no emoji character, no exclamation mark, neither "shut up"
    nor "not" in its lowered form) goes through every pass untouched: score
    0.0, label neutral, and a record with seven entries, all collections
    empty. *)
Theorem cue_free_text_neutral (text : str) :
  forallb is_space text = false ->
  (forall w, In w (words_of str_lower (str_lower text)) ->
             lexicon_word w = false) ->
  is_emoji text = false ->
  count_char 33 text = 0%nat ->
  contains (lit "shut up") (str_lower text) = false ->
  contains (lit "not") (str_lower text) = false ->
  final_ctx str_lower isalnum text = init_ctx /\
  classify_sentiment str_lower isalnum text false = Label neutral /\
  classify_sentiment str_lower isalnum text true
    = WithEvidence neutral
        [("score", PFloat 0); ("positive_hits", PList []);
         ("negative_hits", PList []); ("flipped_by_negation", PList []);
         ("intensified", PList []); ("diminished", PList []);
         ("emoji", PList [])]%string.
Proof.
  intros Hb Hw He Hx Hs Hn.
  assert (final_ctx str_lower isalnum text = init_ctx) as F.
  { unfold final_ctx, ctx_after_ellipsis, ctx_after_words, word_pass.
    cbv zeta. apply split_after_none in Hs.
    destruct (polarity_idioms_need_not _ Hn) as [Nb Ng].
    unfold not_good_pass, not_bad_pass. rewrite Nb, Ng.
    unfold shut_up_pass at 1. rewrite Hs.
    rewrite (word_loop_no_lexicon _ _ _ _ _ Hw).
    rewrite emoji_loop_spec.
    change (is_emoji text) with (existsb is_emoji_char text) in He.
    destruct (emoji_free_fold text (score init_ctx) He) as [-> ->].
    unfold exclaim_pass. cbv zeta. rewrite Hx.
    unfold ellipsis_pass. simpl.
    destruct (re_search isalnum ELLIPSIS_RE (strip text)); reflexivity. }
  split; [exact F|].
  unfold classify_sentiment.
  destruct (is_blank text) eqn:B; [apply is_blank_iff in B; congruence|].
  rewrite F. split; reflexivity.
Qed.

End CueFree.

Lemma cue_free_text_neutral_witness :
  forallb is_space (lit "The cat sat on the mat.") = false /\
  classify_sentiment ascii_lower ascii_alnum (lit "The cat sat on the mat.")
    false = Label neutral.
Proof.
  split; [reflexivity|].
  apply (cue_free_text_neutral ascii_lower ascii_alnum
           (lit "The cat sat on the mat."));
    try reflexivity.
  intros w H. vm_compute in H.
  repeat (destruct H as [<-|H]; [reflexivity|]). contradiction.
Defined.

(** ** What the classifier reads of the original text *)

Lemma is_ascii_letter_true_iff (c : Z) :
  is_ascii_letter c = true <-> 65 <= c <= 90 \/ 97 <= c <= 122.
Proof.
  unfold is_ascii_letter.
  rewrite !orb_true_iff, !andb_true_iff, !Z.leb_le. tauto.
Qed.

Lemma letter_not_space (c : Z) :
  is_ascii_letter c = true -> is_space c = false.
Proof.
  intros H. apply word_letter_not_space.
  rewrite is_word_letter_split, H. reflexivity.
Qed.

Lemma letter_not_emoji (c : Z) :
  is_ascii_letter c = true ->
  in_set [c] POS_EMOJI = false /\ in_set [c] NEG_EMOJI = false.
Proof.
  intros H. apply is_ascii_letter_true_iff in H.
  split.
  - destruct (in_set [c] POS_EMOJI) eqn:E; [exfalso|reflexivity].
    apply in_set_In in E. unfold POS_EMOJI, red_heart in E. simpl in E.
    repeat (destruct E as [E|E]; [injection E as E; try lia|]);
      try contradiction; try discriminate.
  - destruct (in_set [c] NEG_EMOJI) eqn:E; [exfalso|reflexivity].
    apply in_set_In in E. unfold NEG_EMOJI in E. simpl in E.
    repeat (destruct E as [E|E]; [injection E as E; try lia|]);
      try contradiction.
Qed.

Lemma same_or_letters_space (c1 c2 : Z) :
  same_or_letters c1 c2 -> is_space c1 = is_space c2.
Proof.
  intros [->|[H1 H2]]; [reflexivity|].
  rewrite (letter_not_space _ H1), (letter_not_space _ H2). reflexivity.
Qed.

Lemma same_or_letters_eqb (x c1 c2 : Z) :
  is_ascii_letter x = false -> same_or_letters c1 c2 ->
  (x =? c1) = (x =? c2).
Proof.
  intros Hx [->|[H1 H2]]; [reflexivity|].
  destruct (Z.eqb_spec x c1) as [->|_]; [congruence|].
  destruct (Z.eqb_spec x c2) as [->|_]; [congruence|reflexivity].
Qed.

Lemma same_outside_letters_rev (t1 t2 : str) :
  same_outside_letters t1 t2 -> same_outside_letters (rev t1) (rev t2).
Proof.
  unfold same_outside_letters. induction 1 as [|c1 c2 t1 t2 Hc Ht IH];
    simpl; [constructor|].
  apply Forall2_app; [exact IH|]. constructor; [exact Hc|constructor].
Qed.

Lemma same_outside_letters_lstrip (t1 t2 : str) :
  same_outside_letters t1 t2 -> same_outside_letters (lstrip t1) (lstrip t2).
Proof.
  unfold same_outside_letters. induction 1 as [|c1 c2 t1 t2 Hc Ht IH];
    simpl; [constructor|].
  rewrite (same_or_letters_space _ _ Hc).
  destruct (is_space c2); [exact IH|]. constructor; assumption.
Qed.

Lemma same_outside_letters_strip (t1 t2 : str) :
  same_outside_letters t1 t2 -> same_outside_letters (strip t1) (strip t2).
Proof.
  intros H. unfold strip.
  apply same_outside_letters_rev, same_outside_letters_lstrip,
    same_outside_letters_rev, same_outside_letters_lstrip, H.
Qed.

Lemma same_outside_letters_truthy (t1 t2 : str) :
  same_outside_letters t1 t2 -> truthy t1 = truthy t2.
Proof. intros H. destruct H; reflexivity. Qed.

Lemma same_outside_letters_sym (t1 t2 : str) :
  same_outside_letters t1 t2 -> same_outside_letters t2 t1.
Proof.
  unfold same_outside_letters, same_or_letters.
  induction 1 as [|c1 c2 t1 t2 Hc Ht IH]; constructor; [|exact IH].
  destruct Hc as [->|[H1 H2]]; auto.
Qed.

Lemma same_outside_letters_literal (l l' : str) :
  forallb (fun c => negb (is_ascii_letter c)) l = true ->
  same_outside_letters l l' -> l = l'.
Proof.
  intros Hl H. induction H as [|c1 c2 t1 t2 Hc Ht IH]; [reflexivity|].
  simpl in Hl. apply andb_true_iff in Hl as [Hc1 Hl].
  apply negb_true_iff in Hc1.
  destruct Hc as [->|[H1 _]]; [|congruence].
  f_equal. apply IH, Hl.
Qed.

Lemma same_outside_letters_ends_with (l t1 t2 : str) :
  forallb (fun c => negb (is_ascii_letter c)) l = true ->
  same_outside_letters t1 t2 -> ends_with l t1 -> ends_with l t2.
Proof.
  intros Hl H [pre ->].
  apply Forall2_app_inv_l in H as (pre' & l' & _ & Hl' & ->).
  apply (same_outside_letters_literal l l' Hl) in Hl'. subst l'.
  exists pre'. reflexivity.
Qed.

Lemma same_outside_letters_emoji (t1 t2 : str) (st : Ctx) :
  same_outside_letters t1 t2 -> emoji_pass t1 st = emoji_pass t2 st.
Proof.
  unfold emoji_pass, emoji_loop. intros H. revert st.
  induction H as [|c1 c2 t1 t2 Hc Ht IH]; intros st; [reflexivity|].
  cbn [fold_left].
  replace (emoji_step POS_EMOJI NEG_EMOJI st c1)
    with (emoji_step POS_EMOJI NEG_EMOJI st c2); [apply IH|].
  destruct Hc as [->|[H1 H2]]; [reflexivity|].
  unfold emoji_step.
  destruct (letter_not_emoji _ H1) as [-> ->].
  destruct (letter_not_emoji _ H2) as [-> ->]. reflexivity.
Qed.

Lemma same_outside_letters_count (t1 t2 : str) :
  same_outside_letters t1 t2 -> count_char 33 t1 = count_char 33 t2.
Proof.
  unfold count_char. induction 1 as [|c1 c2 t1 t2 Hc Ht IH];
    [reflexivity|].
  cbn [filter]. rewrite (same_or_letters_eqb 33 c1 c2 eq_refl Hc).
  destruct (33 =? c2); simpl; congruence.
Qed.

Lemma same_outside_letters_ellipsis (isalnum : Z -> bool) (t1 t2 : str) :
  same_outside_letters t1 t2 ->
  re_search isalnum ELLIPSIS_RE (strip t1)
  = re_search isalnum ELLIPSIS_RE (strip t2).
Proof.
  intros H. apply same_outside_letters_strip in H.
  pose proof (same_outside_letters_sym _ _ H) as H'.
  apply eq_true_iff_eq.
  rewrite !(ellipsis_search_strip (fun s => s) isalnum).
  split; intros [E|E].
  - left.
    exact (same_outside_letters_ends_with (lit "...") _ _ eq_refl H E).
  - right.
    exact (same_outside_letters_ends_with ELLIPSIS_GLYPH _ _ eq_refl H E).
  - left.
    exact (same_outside_letters_ends_with (lit "...") _ _ eq_refl H' E).
  - right.
    exact (same_outside_letters_ends_with ELLIPSIS_GLYPH _ _ eq_refl H' E).
Qed.

Lemma score_word_original (o1 o2 : str) (words : list str) (i : nat)
  (w : str) (st : Ctx) :
  score_word o1 words i w st = score_word o2 words i w st.
Proof. unfold score_word. rewrite !base_of_reclassify. reflexivity. Qed.

Lemma word_loop_original (o1 o2 : str) (words rest : list str) (i : nat)
  (st : Ctx) :
  word_loop o1 words i rest st = word_loop o2 words i rest st.
Proof.
  revert i st. induction rest as [|w rest IH]; intros i st; [reflexivity|].
  cbn [word_loop]. rewrite IH, (score_word_original o1 o2). reflexivity.
Qed.

(** X15: the classifier reads the original text only through its lowered
    form, its whitespace, and its characters other than ASCII letters: two
    texts with the same lowered form that agree character by character,
    except that an ASCII letter may stand where the other has another ASCII
    letter, get the same label and the same evidence record.  In particular
    the case of ASCII letters does not matter. *)
Theorem classify_reads_lowered_form (str_lower : str -> str)
  (isalnum : Z -> bool) (t1 t2 : str) (return_evidence : bool) :
  str_lower t1 = str_lower t2 ->
  same_outside_letters t1 t2 ->
  classify_sentiment str_lower isalnum t1 return_evidence
  = classify_sentiment str_lower isalnum t2 return_evidence.
Proof.
  intros Hl H.
  assert (is_blank t1 = is_blank t2) as B.
  { unfold is_blank.
    rewrite (same_outside_letters_truthy _ _ H),
      (same_outside_letters_truthy _ _ (same_outside_letters_strip _ _ H)).
    reflexivity. }
  assert (final_ctx str_lower isalnum t1 = final_ctx str_lower isalnum t2)
    as F.
  { unfold final_ctx, ctx_after_ellipsis, ctx_after_words, word_pass.
    cbv zeta. rewrite Hl. f_equal. f_equal.
    unfold ellipsis_pass, exclaim_pass. cbv zeta.
    rewrite (same_outside_letters_ellipsis isalnum t1 t2 H),
      (same_outside_letters_count t1 t2 H),
      (same_outside_letters_emoji t1 t2 _ H),
      (word_loop_original t1 t2).
    reflexivity. }
  unfold classify_sentiment. rewrite B, F. reflexivity.
Qed.

Lemma classify_reads_lowered_form_witness :
  ascii_lower (lit "NOT Bad!") = ascii_lower (lit "not bad!") /\
  classify_sentiment ascii_lower ascii_alnum (lit "NOT Bad!") true
  = classify_sentiment ascii_lower ascii_alnum (lit "not bad!") true.
Proof.
  split; [reflexivity|].
  apply (classify_reads_lowered_form ascii_lower ascii_alnum
           (lit "NOT Bad!") (lit "not bad!") true); [reflexivity|].
  unfold same_outside_letters, same_or_letters.
  repeat (apply Forall2_cons;
          [first [left; reflexivity|right; split; reflexivity]|]).
  apply Forall2_nil.
Defined.
